(** * Growth Funnel Lab: the dashboard script [app.py], embedded and verified

    The script is one top-to-bottom pipeline: load a table, normalise and
    validate its header, filter by date range and channel, aggregate
    (KPIs, funnel, trend, per-channel table) and write three insights.

    Modelling conventions.
    - A DataFrame is its header and its list of rows.  Integer columns are
      [Z], summed as int64 with wrap-around; the money columns and every
      ratio are exact rationals [Q]: the rounding error of float64
      arithmetic is not modelled, its special values are (a [cell] is
      NA/NaN, an infinity or a number).
    - [Series.round(d)] is round-half-even on the exact value.
    - pandas' [nargsort] (NaN last, reversal for descending order) is
      written out around the sort.  [sort_values] runs the stable
      insertion sort of NumPy's scalar build; the default kind is not
      stable, so statements about tied keys go through [sort_values_by],
      which takes any sort that returns a sorted permutation.
    - Where a statement depends on float64 rounding the totals are
      computed on binary64 values (module [F64]).
    - Header cells are byte strings; [lower] and [strip] are Python's on
      ASCII text.
    - Streamlit calls are events of a trace; [st.stop()] and Python
      exceptions end the run. *)

From Stdlib Require Import List ZArith QArith Qround String Ascii Bool Lia.
From Stdlib Require Import Permutation Sorted OrderedTypeEx Setoid Morphisms.
From Stdlib Require Import Lqa.
From Stdlib Require PrimFloat Uint63.
Import ListNotations.

Local Open Scope Z_scope.

(** ** Numeric cells *)

(** A float64 (or object) cell of a derived column. [NA] stands for both
    NaN and [pd.NA]: pandas treats them alike in [dropna] and in sorts. *)
Inductive cell : Type :=
| NA
| NegInf
| Num (q : Q)
| PosInf.

Definition isna (c : cell) : bool :=
  match c with NA => true | _ => false end.

(** [a / b] on two columns whose entries are finite or missing.  A missing
    operand gives a missing result; a zero denominator gives an infinity
    of the sign of the numerator, or NaN for [0 / 0]. *)
Definition true_div (a b : option Q) : cell :=
  match a, b with
  | Some x, Some y =>
      if Qeq_bool y 0 then
        match Qcompare x 0 with
        | Gt => PosInf
        | Lt => NegInf
        | Eq => NA
        end
      else Num (x / y)
  | _, _ => NA
  end.

(** Nearest integer, halves to the even neighbour (C's [rint]). *)
Definition rint (y : Q) : Z :=
  let f := Qfloor y in
  match Qcompare (y - inject_Z f) (1 # 2) with
  | Lt => f
  | Gt => f + 1
  | Eq => if Z.even f then f else f + 1
  end.

Definition round_q (q : Q) (decimals : nat) : Q :=
  let scale := inject_Z (10 ^ Z.of_nat decimals) in
  Qred (inject_Z (rint (q * scale)) / scale).

(** [Series.round(decimals)]: infinities and NA pass through. *)
Definition round (c : cell) (decimals : nat) : cell :=
  match c with
  | Num q => Num (round_q q decimals)
  | other => other
  end.

(** Order used by the sorts: -inf < numbers < +inf, NA greatest (the
    sorts below never compare an NA key: they are split off first). *)
Definition cell_leb (a b : cell) : bool :=
  match a, b with
  | _, NA => true
  | NA, _ => false
  | NegInf, _ => true
  | _, NegInf => false
  | _, PosInf => true
  | PosInf, _ => false
  | Num x, Num y => Qle_bool x y
  end.

Definition cell_ltb (a b : cell) : bool := negb (cell_leb b a).

(** ** Tables *)

(** One row of the input, read through the nine required columns.  [r_date]
    is the parsed timestamp in seconds; [dt_date] is its calendar day. *)
Record Row : Type := mkRow {
  r_date : Z;
  r_channel : string;
  r_visits : Z;
  r_signup : Z;
  r_add_to_cart : Z;
  r_checkout : Z;
  r_purchase : Z;
  r_spend : Q;
  r_revenue : Q
}.

Record DataFrame : Type := mkDataFrame {
  columns : list string;
  rows : list Row
}.

Definition dt_date (timestamp : Z) : Z := timestamp / 86400.

(** Integer columns are int64: their sums wrap around. *)
Definition int64 (z : Z) : Z := (z + 2 ^ 63) mod 2 ^ 64 - 2 ^ 63.

Definition add64 (x y : Z) : Z := int64 (x + y).

(** Two integers that are the same int64. *)
Definition same64 (x y : Z) : Prop := int64 x = int64 y.

Definition sum_Z (l : list Z) : Z := fold_right add64 0 l.
Definition sum_Q (l : list Q) : Q := fold_right Qplus (0 # 1)%Q l.

(** ** Sorting *)

Section StableSort.
Context {A : Type} (leb : A -> A -> bool).

(** [x] goes in front of the first element it does not exceed: coming
    from the left of the input, it stays in front of its equals. *)
Fixpoint insert (x : A) (l : list A) : list A :=
  match l with
  | [] => [x]
  | y :: l' => if leb x y then x :: y :: l' else y :: insert x l'
  end.

Definition sort (l : list A) : list A := fold_right insert [] l.
End StableSort.

(** Python's [sorted] on strings (code-point order). *)
Definition sorted (l : list string) : list string := sort String.leb l.

(** [DataFrame.sort_values(by, ascending)]: rows with an NA key go last in
    their original order; the rest is sorted, and for a descending sort
    pandas reverses before and after so that ties keep their order. *)
Definition sort_values {A : Type} (by_ : A -> cell) (ascending : bool)
    (l : list A) : list A :=
  let le := fun x y => cell_leb (by_ x) (by_ y) in
  let non_nan := filter (fun r => negb (isna (by_ r))) l in
  let nan := filter (fun r => isna (by_ r)) l in
  (if ascending then sort le non_nan else rev (sort le (rev non_nan))) ++ nan.

(** [.head(1)] *)
Definition head1 {A : Type} (l : list A) : list A := firstn 1 l.

(** [Series.unique()]: distinct values in order of first appearance. *)
Section Unique.
Context {K : Type} (eqb : K -> K -> bool).

Fixpoint unique (l : list K) : list K :=
  match l with
  | [] => []
  | x :: l' => x :: filter (fun y => negb (eqb x y)) (unique l')
  end.
End Unique.

(** ** Loader and validator (lines 19-33) *)

(** [str.lower] and [str.strip] on ASCII text. *)
Definition lower_ascii (c : ascii) : ascii :=
  let n := nat_of_ascii c in
  if ((65 <=? n) && (n <=? 90))%nat then ascii_of_nat (n + 32) else c.

Fixpoint lower (s : string) : string :=
  match s with
  | EmptyString => EmptyString
  | String c s' => String (lower_ascii c) (lower s')
  end.

Definition is_space (c : ascii) : bool :=
  let n := nat_of_ascii c in
  ((n =? 32) || ((9 <=? n) && (n <=? 13)) || ((28 <=? n) && (n <=? 31)))%nat.

Fixpoint lstrip (s : string) : string :=
  match s with
  | EmptyString => EmptyString
  | String c s' => if is_space c then lstrip s' else s
  end.

Fixpoint rstrip (s : string) : string :=
  match s with
  | EmptyString => EmptyString
  | String c s' =>
      match rstrip s' with
      | EmptyString => if is_space c then EmptyString else String c EmptyString
      | t => String c t
      end
  end.

Definition strip (s : string) : string := rstrip (lstrip s).

(** [df.columns = [c.lower().strip() for c in df.columns]] *)
Definition normalise_columns (df : DataFrame) : DataFrame :=
  mkDataFrame (map (fun c => strip (lower c)) (columns df)) (rows df).

Definition required : list string :=
  ["date"; "channel"; "visits"; "signup"; "add_to_cart"; "checkout";
   "purchase"; "spend"; "revenue"]%string.

Definition mem (s : string) (l : list string) : bool :=
  existsb (String.eqb s) l.

(** [required - set(df.columns)] *)
Definition missing (df : DataFrame) : list string :=
  filter (fun c => negb (mem c (columns df))) required.

(** ** Filterer (lines 40-48) *)

Definition series_min (l : list Z) : option Z :=
  match l with
  | [] => None
  | x :: l' => Some (fold_left Z.min l' x)
  end.

Definition series_max (l : list Z) : option Z :=
  match l with
  | [] => None
  | x :: l' => Some (fold_left Z.max l' x)
  end.

(** [mask = (df["date"].dt.date >= start) & (df["date"].dt.date <= end)] *)
Definition mask (start end_ : Z) (r : Row) : bool :=
  (start <=? dt_date (r_date r)) && (dt_date (r_date r) <=? end_).

(** [df[mask].copy()] *)
Definition filter_dates (start end_ : Z) (df : list Row) : list Row :=
  filter (mask start end_) df.

(** [sorted(df["channel"].unique())] on the date-filtered frame: the
    options, and the default, of the channel widget. *)
Definition channel_options (start end_ : Z) (df : list Row) : list string :=
  sorted (unique String.eqb (map r_channel (filter_dates start end_ df))).

(** [df[df["channel"].isin(channels)]] *)
Definition filter_channels (channels : list string) (df : list Row)
    : list Row :=
  filter (fun r => mem (r_channel r) channels) df.

(** Both filters, as the script chains them. *)
Definition filter_df (start end_ : Z) (channels : list string)
    (df : list Row) : list Row :=
  filter_channels channels (filter_dates start end_ df).

(** ** Aggregator: KPIs (lines 51-58) *)

Definition spend (df : list Row) : Q := sum_Q (map r_spend df).
Definition revenue (df : list Row) : Q := sum_Q (map r_revenue df).
Definition purchases (df : list Row) : Z := sum_Z (map r_purchase df).
Definition visits (df : list Row) : Z := sum_Z (map r_visits df).

(** [x / y if y else 0] *)
Definition ratio_or_zero (x y : Q) : Q :=
  if Qeq_bool y 0 then 0%Q else (x / y)%Q.

Definition roas (df : list Row) : Q := ratio_or_zero (revenue df) (spend df).
Definition cac (df : list Row) : Q :=
  ratio_or_zero (spend df) (inject_Z (purchases df)).
Definition cvr (df : list Row) : Q :=
  ratio_or_zero (inject_Z (purchases df)) (inject_Z (visits df)).

(** ** Aggregator: funnel and drop-off table (lines 70-79) *)

Inductive Stage : Type := Visits | Signup | AddToCart | Checkout | Purchase.

Record FunnelStep : Type := mkFunnelStep {
  stage : Stage;
  count : Z;
  next : option Z;
  dropoff_pct : cell
}.

Definition stages : list Stage :=
  [Visits; Signup; AddToCart; Checkout; Purchase].

Definition counts (df : list Row) : list Z :=
  [sum_Z (map r_visits df); sum_Z (map r_signup df);
   sum_Z (map r_add_to_cart df); sum_Z (map r_checkout df);
   sum_Z (map r_purchase df)].

(** [Series.shift(-1)]: each entry takes its successor, the last is NaN. *)
Definition shift_m1 (l : list Z) : list (option Z) :=
  match l with
  | [] => []
  | _ :: l' => map Some l' ++ [None]
  end.

(** [((count - next) / count).round(4)] on one row. *)
Definition dropoff (c : Z) (n : option Z) : cell :=
  round (true_div (option_map (fun m => inject_Z c - inject_Z m)%Q n)
                  (Some (inject_Z c))) 4.

Definition funnel (df : list Row) : list FunnelStep :=
  map (fun '(s, c, n) => mkFunnelStep s c n (dropoff c n))
      (combine (combine stages (counts df)) (shift_m1 (counts df))).

(** [funnel.dropna()]: a row goes when any of its cells is missing. *)
Definition dropna (f : list FunnelStep) : list FunnelStep :=
  filter (fun r => match next r with
                   | None => false
                   | Some _ => negb (isna (dropoff_pct r))
                   end) f.

(** ** Aggregator: trend (line 85) and channel performance (lines 91-99) *)

Record TrendPoint : Type := mkTrendPoint {
  t_date : Z;
  t_spend : Q;
  t_revenue : Q;
  t_purchase : Z
}.

(** [groupby] sorts the group keys; each group keeps the rows of its key. *)
Definition trend (df : list Row) : list TrendPoint :=
  map (fun d =>
         let g := filter (fun r => r_date r =? d) df in
         mkTrendPoint d (sum_Q (map r_spend g)) (sum_Q (map r_revenue g))
                      (sum_Z (map r_purchase g)))
      (sort Z.leb (unique Z.eqb (map r_date df))).

Record ChannelMetrics : Type := mkChannelMetrics {
  cm_channel : string;
  cm_spend : Q;
  cm_revenue : Q;
  cm_purchase : Z;
  cm_visits : Z;
  cm_roas : cell;
  cm_cac : cell;
  cm_cvr : cell
}.

(** [series.replace({0: pd.NA})] on one entry. *)
Definition replace_zero_NA (v : Z) : option Q :=
  if v =? 0 then None else Some (inject_Z v).

Definition group (c : string) (df : list Row) : list Row :=
  filter (fun r => String.eqb (r_channel r) c) df.

(** One row of the channel table.  When a channel has no purchases (no
    visits) the replaced column is of object dtype and what [.round] does
    to it depends on the pandas version (it raises, or rounds nothing);
    here the defined cells are rounded and the others stay missing. *)
Definition channel_row (df : list Row) (c : string) : ChannelMetrics :=
  let g := group c df in
  let s := sum_Q (map r_spend g) in
  let rv := sum_Q (map r_revenue g) in
  let p := sum_Z (map r_purchase g) in
  let v := sum_Z (map r_visits g) in
  mkChannelMetrics c s rv p v
    (round (true_div (Some rv) (Some s)) 2)
    (round (true_div (Some s) (replace_zero_NA p)) 2)
    (round (true_div (Some (inject_Z p)) (replace_zero_NA v)) 4).

Definition by_ch (df : list Row) : list ChannelMetrics :=
  map (channel_row df) (sorted (unique String.eqb (map r_channel df))).

(** ** Insight selections (lines 105-109) *)

Definition best (t : list ChannelMetrics) : list ChannelMetrics :=
  head1 (sort_values cm_roas false t).

Definition worst (t : list ChannelMetrics) : list ChannelMetrics :=
  head1 (sort_values cm_roas true t).

Definition drop (f : list FunnelStep) : list FunnelStep :=
  head1 (sort_values dropoff_pct false (dropna f)).

(** [r] is the first row of [t], in table order, whose key is the greatest
    (the least) of the keys that are not NA. *)
Definition first_max {A : Type} (key : A -> cell) (t : list A) (r : A)
    : Prop :=
  exists l1 l2,
    t = l1 ++ r :: l2 /\ isna (key r) = false /\
    Forall (fun x => isna (key x) = true \/
                     cell_ltb (key x) (key r) = true) l1 /\
    Forall (fun x => isna (key x) = true \/
                     cell_leb (key x) (key r) = true) l2.

Definition first_min {A : Type} (key : A -> cell) (t : list A) (r : A)
    : Prop :=
  exists l1 l2,
    t = l1 ++ r :: l2 /\ isna (key r) = false /\
    Forall (fun x => isna (key x) = true \/
                     cell_ltb (key r) (key x) = true) l1 /\
    Forall (fun x => isna (key x) = true \/
                     cell_leb (key r) (key x) = true) l2.

(** ** The script as a trace of Streamlit events *)

(** The three statements carry the values their f-strings interpolate;
    the fourth line is fixed text. *)
Inductive insight : Type :=
| BestROAS (channel : string) (value : cell)
| LowestROAS (channel : string) (value : cell)
| BiggestDrop (s : Stage) (value : cell)
| Recommendation.

Inductive event : Type :=
| Info
| Error (missing_columns : list string)
| Metric (label : string) (value : Q)
| FunnelChart (steps : list (Stage * Z))
| DropoffTable (steps : list FunnelStep)
| TrendChart (points : list TrendPoint)
| ChannelTable (table : list ChannelMetrics)
| Write (line : insight).

Inductive exn : Type := IndexError.

Inductive result (A : Type) : Type :=
| Ok (a : A)
| Stopped
| Raised (e : exn).
Arguments Ok {A} a.
Arguments Stopped {A}.
Arguments Raised {A} e.

(** What has been rendered so far, and how the run stands. *)
Definition script (A : Type) : Type := (list event * result A)%type.

Definition ret {A : Type} (a : A) : script A := ([], Ok a).

Definition bind {A B : Type} (m : script A) (k : A -> script B) : script B :=
  match m with
  | (t, Ok a) => let (t', r) := k a in (t ++ t', r)
  | (t, Stopped) => (t, Stopped)
  | (t, Raised e) => (t, Raised e)
  end.

Notation "x <- m ;; k" := (bind m (fun x => k))
  (at level 61, m at next level, right associativity).
Notation "m ;; k" := (bind m (fun _ => k))
  (at level 61, right associativity).

Definition emit (e : event) : script unit := ([e], Ok tt).
Definition stop {A : Type} : script A := ([], Stopped).
Definition raise {A : Type} (e : exn) : script A := ([], Raised e).

(** [frame[col].iloc[0]] *)
Definition iloc0 {A : Type} (l : list A) : script A :=
  match l with
  | [] => raise IndexError
  | x :: _ => ret x
  end.

(** The widgets are the environment: what the user leaves selected, given
    what the script offers (the label, the default, the options). *)
Record Widgets : Type := mkWidgets {
  date_input : string -> option Z -> Z;
  multiselect : string -> list string -> list string -> list string
}.

(** Lines 19-25. [uploaded] is the parsed upload, [sample_data] the parsed
    bundled file. *)
Definition load (uploaded : option DataFrame) (use_sample : bool)
    (sample_data : DataFrame) : script DataFrame :=
  match uploaded with
  | Some f => ret f
  | None => if use_sample then ret sample_data else emit Info ;; stop
  end.

(** Lines 29-33. *)
Definition validate (df : DataFrame) : script unit :=
  match missing df with
  | [] => ret tt
  | _ :: _ => emit (Error (sorted (missing df))) ;; stop
  end.

(** Lines 105-114. *)
Definition insights (t : list ChannelMetrics) (f : list FunnelStep)
    : script unit :=
  b <- iloc0 (best t) ;;
  emit (Write (BestROAS (cm_channel b) (cm_roas b))) ;;
  w <- iloc0 (worst t) ;;
  emit (Write (LowestROAS (cm_channel w) (cm_roas w))) ;;
  d <- iloc0 (drop f) ;;
  emit (Write (BiggestDrop (stage d) (dropoff_pct d))) ;;
  emit (Write Recommendation).

(** Lines 51-114 on the filtered rows. *)
Definition render (df : list Row) : script unit :=
  emit (Metric "Spend" (spend df)) ;;
  emit (Metric "Revenue" (revenue df)) ;;
  emit (Metric "ROAS" (roas df)) ;;
  emit (Metric "Conversion Rate" (cvr df)) ;;
  emit (FunnelChart (combine stages (counts df))) ;;
  emit (DropoffTable (funnel df)) ;;
  emit (TrendChart (trend df)) ;;
  emit (ChannelTable (sort_values cm_roas false (by_ch df))) ;;
  insights (by_ch df) (funnel df).

(** The whole script. *)
Definition app (ui : Widgets) (uploaded : option DataFrame)
    (use_sample : bool) (sample_data : DataFrame) : script unit :=
  df <- load uploaded use_sample sample_data ;;
  let df := normalise_columns df in
  validate df ;;
  let dates := map r_date (rows df) in
  let start := date_input ui "Start date" (option_map dt_date (series_min dates)) in
  let end_ := date_input ui "End date" (option_map dt_date (series_max dates)) in
  let options := channel_options start end_ (rows df) in
  let channels := multiselect ui "Channel" options options in
  render (filter_df start end_ channels (rows df)).

(** Widgets nobody touched return their defaults (an empty frame has no
    date to offer: day 0 stands in, and no row is there to be filtered). *)
Definition untouched : Widgets :=
  mkWidgets (fun _ d => match d with Some x => x | None => 0 end)
            (fun _ _ default => default).

(** The range the date widgets start with (lines 40 and 42). *)
Definition default_start (df : list Row) : Z :=
  date_input untouched "Start date"
    (option_map dt_date (series_min (map r_date df))).

Definition default_end (df : list Row) : Z :=
  date_input untouched "End date"
    (option_map dt_date (series_max (map r_date df))).

(** ** Frames as objects (lines 44-48)

    The two filter statements rebind the variable [df] to fresh frames.
    A heap of frame objects makes the aliasing explicit. *)
Module Heap.
Definition ref : Type := nat.
Definition heap : Type := list (list Row).

Definition deref (h : heap) (p : ref) : list Row := nth p h [].

Definition alloc (h : heap) (f : list Row) : heap * ref :=
  (h ++ [f], List.length h).

(** [df = df[mask].copy()] then [df = df[df["channel"].isin(channels)]]:
    the new heap and the new binding of [df]. *)
Definition filter_stmts (start end_ : Z) (channels : list string)
    (h : heap) (df : ref) : heap * ref :=
  let (h1, df1) := alloc h (filter_dates start end_ (deref h df)) in
  alloc h1 (filter_channels channels (deref h1 df1)).
End Heap.

(** ** Sample inputs *)

Definition day (n : Z) : Z := n * 86400.

Definition header : list string :=
  ["date"; "channel"; "visits"; "signup"; "add_to_cart"; "checkout";
   "purchase"; "spend"; "revenue"]%string.

(** Three channels, two of them with the greatest return. *)
Definition abc : list Row :=
  [mkRow (day 1) "A" 100 50 30 20 10 100 300;
   mkRow (day 1) "B" 100 50 30 20 10 200 300;
   mkRow (day 1) "C" 100 50 30 20 10 100 300].

(** Two channels on two days. *)
Definition two_days : list Row :=
  [mkRow (day 1) "A" 100 50 30 20 10 100 300;
   mkRow (day 2) "B" 100 50 30 20 10 200 300].

(** An unpaid channel that earns revenue. *)
Definition organic : list Row :=
  [mkRow (day 1) "organic" 100 50 30 20 10 0 300;
   mkRow (day 1) "paid" 100 50 30 20 10 100 300].

(** The user clears the channel selection. *)
Definition deselect_all : Widgets :=
  mkWidgets (date_input untouched) (fun _ _ _ => []).


(** A row whose funnel narrows: each stage holds at most the entries of
    the stage before, and none is negative. *)
Definition well_formed (r : Row) : Prop :=
  0 <= r_purchase r /\ r_purchase r <= r_checkout r /\
  r_checkout r <= r_add_to_cart r /\ r_add_to_cart r <= r_signup r /\
  r_signup r <= r_visits r.

(** ** The default sort kind (lines 101-109)

    [sort_values] is called without [kind], so NumPy's default introsort
    does the sorting.  It is not stable: short arrays go through an
    insertion sort on scalar builds and through sorting networks on SIMD
    builds, and the two disagree on the order of equal keys.  What every
    build guarantees is a sorted permutation; [sort_values] above is the
    scalar build, [sort_values_by] takes the sort as a parameter. *)

Definition argsort_ok
    (argsort : forall A : Type, (A -> A -> bool) -> list A -> list A)
    : Prop :=
  forall (A : Type) (leb : A -> A -> bool) (l : list A),
    Permutation (argsort A leb l) l /\
    ((forall x y, leb x y = true \/ leb y x = true) ->
     (forall x y z, leb x y = true -> leb y z = true -> leb x z = true) ->
     StronglySorted (fun a b => leb a b = true) (argsort A leb l)).

Definition sort_values_by
    (argsort : forall A : Type, (A -> A -> bool) -> list A -> list A)
    {A : Type} (by_ : A -> cell) (ascending : bool) (l : list A) : list A :=
  let le := fun x y => cell_leb (by_ x) (by_ y) in
  let non_nan := filter (fun r => negb (isna (by_ r))) l in
  let nan := filter (fun r => isna (by_ r)) l in
  (if ascending then argsort A le non_nan
   else rev (argsort A le (rev non_nan))) ++ nan.

Definition best_by
    (argsort : forall A : Type, (A -> A -> bool) -> list A -> list A)
    (t : list ChannelMetrics) : list ChannelMetrics :=
  head1 (sort_values_by argsort cm_roas false t).

Definition worst_by
    (argsort : forall A : Type, (A -> A -> bool) -> list A -> list A)
    (t : list ChannelMetrics) : list ChannelMetrics :=
  head1 (sort_values_by argsort cm_roas true t).


(** The scalar build: the stable insertion sort. *)
Definition sort_stable (A : Type) (leb : A -> A -> bool) (l : list A)
    : list A :=
  sort leb l.

(** A sort that puts equal keys in the reverse of their input order. *)
Definition sort_rev_ties (A : Type) (leb : A -> A -> bool) (l : list A)
    : list A :=
  rev (sort (fun x y => leb y x) l).

(** ** The money totals in float64 (lines 51-52, 91-93)

    Where a statement depends on rounding, the totals are computed on
    binary64 values: a cell is the float nearest to its decimal, the frame
    total is NumPy's pairwise [add.reduce], a group total is the
    compensated sum of pandas' [group_sum]. *)
Module F64.
Definition of_Z (z : Z) : PrimFloat.float :=
  match z with
  | Z0 => PrimFloat.zero
  | Zpos _ => PrimFloat.of_uint63 (Uint63.of_Z z)
  | Zneg p => PrimFloat.opp (PrimFloat.of_uint63 (Uint63.of_Z (Zpos p)))
  end.

(** The float of a decimal cell (numerator and denominator below 2^53). *)
Definition of_Q (q : Q) : PrimFloat.float :=
  PrimFloat.div (of_Z (Qnum q)) (of_Z (Zpos (Qden q))).

(** While eight elements remain, add them to the eight accumulators. *)
Fixpoint blocks (fuel : nat) (r l : list PrimFloat.float)
    : list PrimFloat.float * list PrimFloat.float :=
  match fuel with
  | O => (r, l)
  | S fuel' =>
      if (8 <=? List.length l)%nat then
        blocks fuel'
               (map (fun p => PrimFloat.add (fst p) (snd p))
                    (combine r (firstn 8 l)))
               (skipn 8 l)
      else (r, l)
  end.

Definition combine8 (r : list PrimFloat.float) : PrimFloat.float :=
  let x := fun i => nth i r PrimFloat.zero in
  PrimFloat.add
    (PrimFloat.add (PrimFloat.add (x 0%nat) (x 1%nat))
                   (PrimFloat.add (x 2%nat) (x 3%nat)))
    (PrimFloat.add (PrimFloat.add (x 4%nat) (x 5%nat))
                   (PrimFloat.add (x 6%nat) (x 7%nat))).

(** NumPy's [pairwise_sum]: fewer than 8 elements are added left to right
    from -0.0; up to 128 go through eight accumulators and a tail loop;
    longer arrays are split near the middle, at a multiple of 8. *)
Fixpoint pairwise_sum (fuel : nat) (l : list PrimFloat.float)
    : PrimFloat.float :=
  let n := List.length l in
  if (n <? 8)%nat then fold_left PrimFloat.add l PrimFloat.neg_zero
  else if (n <=? 128)%nat then
    let (r, rest) := blocks n (firstn 8 l) (skipn 8 l) in
    fold_left PrimFloat.add rest (combine8 r)
  else
    match fuel with
    | O => PrimFloat.nan
    | S fuel' =>
        let n2 := (n / 2 - (n / 2) mod 8)%nat in
        PrimFloat.add (pairwise_sum fuel' (firstn n2 l))
                      (pairwise_sum fuel' (skipn n2 l))
    end.

(** [Series.sum()] on a float64 column (up to the sign of a zero total). *)
Definition np_sum (l : list PrimFloat.float) : PrimFloat.float :=
  pairwise_sum (List.length l) l.

(** pandas' [group_sum] on one group: Kahan summation, the compensation
    reset when it is NaN. *)
Definition kahan_step (st : PrimFloat.float * PrimFloat.float)
    (val : PrimFloat.float) : PrimFloat.float * PrimFloat.float :=
  let (sumx, compensation) := st in
  let y := PrimFloat.sub val compensation in
  let t := PrimFloat.add sumx y in
  let c := PrimFloat.sub (PrimFloat.sub t sumx) y in
  (t, if PrimFloat.eqb c c then c else PrimFloat.zero).

Definition group_sum (l : list PrimFloat.float) : PrimFloat.float :=
  fst (fold_left kahan_step l (PrimFloat.zero, PrimFloat.zero)).

(** [df["spend"].sum()] and the [spend] column of [by_ch]. *)
Definition spend (df : list Row) : PrimFloat.float :=
  np_sum (map (fun r => of_Q (r_spend r)) df).

Definition by_ch_spend (df : list Row) : list PrimFloat.float :=
  map (fun c => group_sum (map (fun r => of_Q (r_spend r)) (group c df)))
      (sorted (unique String.eqb (map r_channel df))).
End F64.

(** ** More sample inputs *)

(** Four channels: A and B return 1.0, C and D return 2.0. *)
Definition ties : list Row :=
  [mkRow (day 1) "A" 100 50 30 20 10 100 100;
   mkRow (day 1) "B" 100 50 30 20 10 100 100;
   mkRow (day 1) "C" 100 50 30 20 10 100 200;
   mkRow (day 1) "D" 100 50 30 20 10 100 200].


(** Visits and purchases, and none of the stages between them. *)
Definition skipped_stages : list Row :=
  [mkRow (day 1) "A" 100 0 0 0 5 100 300].

(** Two channels spending 0.1 + 0.2 and 0.2 + 0.1. *)
Definition split_spend : list Row :=
  [mkRow (day 1) "A" 100 50 30 20 10 (1 # 10) 300;
   mkRow (day 2) "A" 100 50 30 20 10 (2 # 10) 300;
   mkRow (day 1) "B" 100 50 30 20 10 (2 # 10) 300;
   mkRow (day 2) "B" 100 50 30 20 10 (1 # 10) 300].

(** A header cell made of ASCII characters only: on these [lower] and
    [strip] are Python's [str.lower] and [str.strip]. *)
Fixpoint ascii_only (s : string) : bool :=
  match s with
  | EmptyString => true
  | String c s' => (nat_of_ascii c <? 128)%nat && ascii_only s'
  end.

(** * Properties *)

(** ** The stable sort *)

Section SortFacts.
Context {A : Type} (leb : A -> A -> bool).
Hypothesis leb_total : forall x y, leb x y = true \/ leb y x = true.
Hypothesis leb_trans :
  forall x y z, leb x y = true -> leb y z = true -> leb x z = true.

Lemma insert_perm (x : A) (l : list A) :
  Permutation (insert leb x l) (x :: l).
Proof.
  induction l as [|y l IH]; simpl; [reflexivity|].
  destruct (leb x y); [reflexivity|].
  rewrite IH. apply perm_swap.
Qed.

Lemma sort_perm (l : list A) : Permutation (sort leb l) l.
Proof.
  induction l as [|x l IH]; simpl; [constructor|].
  rewrite insert_perm. now constructor.
Qed.

Lemma In_sort (x : A) (l : list A) : In x (sort leb l) <-> In x l.
Proof.
  split; apply Permutation_in;
    [apply sort_perm | apply Permutation_sym, sort_perm].
Qed.

Lemma sort_nil_inv (l : list A) : sort leb l = [] -> l = [].
Proof.
  intro H. apply Permutation_nil.
  rewrite <- H. apply sort_perm.
Qed.

Lemma insert_sorted (x : A) (l : list A) :
  StronglySorted (fun a b => leb a b = true) l ->
  StronglySorted (fun a b => leb a b = true) (insert leb x l).
Proof.
  induction 1 as [|y l Hs IH Hy]; simpl.
  - repeat constructor.
  - destruct (leb x y) eqn:E.
    + constructor; [now constructor|].
      constructor; [exact E|].
      eapply Forall_impl; [|exact Hy].
      intros z Hz. now apply leb_trans with y.
    + constructor; [exact IH|].
      eapply Permutation_Forall; [apply Permutation_sym, insert_perm|].
      constructor; [|exact Hy].
      destruct (leb_total x y) as [H|H]; congruence.
Qed.

Lemma sort_sorted (l : list A) :
  StronglySorted (fun a b => leb a b = true) (sort leb l).
Proof.
  induction l; simpl; [constructor | now apply insert_sorted].
Qed.

(** The head of the insertion and the last element of the insertion. *)
Lemma hd_insert (x : A) (s : list A) :
  hd_error (insert leb x s) =
  match s with
  | [] => Some x
  | y :: _ => if leb x y then Some x else Some y
  end.
Proof. destruct s as [|y s]; simpl; [|destruct (leb x y)]; reflexivity. Qed.

Lemma insert_not_nil (x : A) (s : list A) : insert leb x s <> [].
Proof. destruct s as [|y s]; simpl; [|destruct (leb x y)]; discriminate. Qed.

Lemma last_insert (x d : A) (s : list A) :
  last (insert leb x s) d = if existsb (leb x) s then last s d else x.
Proof.
  induction s as [|y s IH]; [reflexivity|].
  cbn [insert existsb]. destruct (leb x y) eqn:E; cbn [orb].
  - reflexivity.
  - transitivity (last (insert leb x s) d).
    + destruct (insert leb x s) eqn:Ei; [|reflexivity].
      now apply insert_not_nil in Ei.
    + rewrite IH. destruct s; reflexivity.
Qed.

(** The sorted list starts with the first of the least elements. *)
Lemma sort_head_first_min (l : list A) :
  l <> [] ->
  exists l1 r l2,
    l = l1 ++ r :: l2 /\ hd_error (sort leb l) = Some r /\
    Forall (fun x => leb x r = false) l1 /\
    Forall (fun x => leb r x = true) l2.
Proof.
  induction l as [|x l IH]; [congruence|]. intros _.
  simpl. rewrite hd_insert.
  destruct l as [|y l'].
  - exists [], x, []. simpl. repeat split; constructor.
  - destruct IH as (l1 & r & l2 & El & Hh & H1 & H2); [discriminate|].
    destruct (sort leb (y :: l')) as [|h s] eqn:Es; [discriminate|].
    simpl in Hh. injection Hh as ->.
    destruct (leb x r) eqn:E.
    + exists [], x, (y :: l'). simpl. repeat split; [constructor|].
      rewrite El. apply Forall_app. split.
      * eapply Forall_impl; [|exact H1]. intros z Hz.
        apply leb_trans with r; [exact E|].
        destruct (leb_total z r); congruence.
      * constructor; [exact E|].
        eapply Forall_impl; [|exact H2]. intros z Hz.
        now apply leb_trans with r.
    + exists (x :: l1), r, l2. rewrite El. simpl.
      repeat split; [|exact H2]. now constructor.
Qed.

(** The sorted list ends with the last of the greatest elements. *)
Lemma sort_last_last_max (d : A) (l : list A) :
  l <> [] ->
  exists l1 r l2,
    l = l1 ++ r :: l2 /\ last (sort leb l) d = r /\
    Forall (fun x => leb x r = true) l1 /\
    Forall (fun x => leb r x = false) l2.
Proof.
  induction l as [|x l IH]; [congruence|]. intros _.
  simpl. rewrite last_insert.
  destruct l as [|y l'].
  - exists [], x, []. simpl. repeat split; constructor.
  - destruct IH as (l1 & r & l2 & El & Hl & H1 & H2); [discriminate|].
    destruct (existsb (leb x) (sort leb (y :: l'))) eqn:E.
    + apply existsb_exists in E. destruct E as (z & Hz & Hxz).
      apply (proj1 (In_sort _ _)) in Hz.
      assert (Hr : leb z r = true).
      { rewrite El in Hz. apply in_app_or in Hz.
        rewrite Forall_forall in H1, H2.
        destruct Hz as [Hz|[<-|Hz]].
        - now apply H1.
        - destruct (leb_total r r); assumption.
        - specialize (H2 _ Hz). destruct (leb_total z r); congruence. }
      exists (x :: l1), r, l2.
      split; [simpl; now rewrite El|].
      split; [exact Hl|]. split; [|exact H2].
      constructor; [|exact H1]. now apply leb_trans with z.
    + exists [], x, (y :: l'). simpl. repeat split; [constructor|].
      apply Forall_forall. intros z Hz.
      destruct (leb x z) eqn:Exz; [|reflexivity].
      assert (existsb (leb x) (sort leb (y :: l')) = true); [|congruence].
      apply existsb_exists. exists z. split; [|exact Exz].
      now apply (proj2 (In_sort _ _)).
Qed.
End SortFacts.

(** ** The order on cells and [sort_values] *)

Lemma cell_leb_total (a b : cell) :
  cell_leb a b = true \/ cell_leb b a = true.
Proof.
  destruct a as [| |x|], b as [| |y|]; simpl; auto.
  rewrite !Qle_bool_iff.
  destruct (Qlt_le_dec x y) as [H|H]; [left; now apply Qlt_le_weak | now right].
Qed.

Lemma cell_leb_trans (a b c : cell) :
  cell_leb a b = true -> cell_leb b c = true -> cell_leb a c = true.
Proof.
  destruct a as [| |x|], b as [| |y|], c as [| |z|]; simpl;
    try reflexivity; try discriminate.
  rewrite !Qle_bool_iff. apply Qle_trans.
Qed.

Lemma filter_split {A : Type} (p : A -> bool) (t m1 m2 : list A) (r : A) :
  filter p t = m1 ++ r :: m2 ->
  exists l1 l2,
    t = l1 ++ r :: l2 /\ filter p l1 = m1 /\ filter p l2 = m2 /\ p r = true.
Proof.
  revert m1. induction t as [|a t IH]; intros m1 H; simpl in H.
  - now destruct m1.
  - destruct (p a) eqn:E.
    + destruct m1 as [|b m1]; simpl in H; injection H as -> H.
      * exists [], t. auto.
      * destruct (IH _ H) as (l1 & l2 & -> & <- & <- & Hr).
        exists (b :: l1), l2. simpl. rewrite E. auto.
    + destruct (IH _ H) as (l1 & l2 & -> & <- & <- & Hr).
      exists (a :: l1), l2. simpl. rewrite E. auto.
Qed.

Lemma head1_rev_last {A : Type} (d : A) (s nan : list A) :
  s <> [] -> head1 (rev s ++ nan) = [last s d].
Proof.
  intro H. rewrite (app_removelast_last d H) at 1.
  rewrite rev_app_distr. reflexivity.
Qed.

Section SortValues.
Context {A : Type} (key : A -> cell).

Let le (x y : A) : bool := cell_leb (key x) (key y).
Let defined (r : A) : bool := negb (isna (key r)).

Lemma le_total x y : le x y = true \/ le y x = true.
Proof. apply cell_leb_total. Qed.

Lemma le_trans x y z : le x y = true -> le y z = true -> le x z = true.
Proof. apply cell_leb_trans. Qed.

Lemma defined_false (t : list A) (x : A) :
  In x t -> defined x = false -> isna (key x) = true.
Proof. unfold defined. intros _ H. now destruct (isna (key x)). Qed.

(** Descending: the head is the first row with the greatest key. *)
Lemma sort_values_desc_head (t : list A) :
  filter defined t <> [] ->
  exists r, head1 (sort_values key false t) = [r] /\ first_max key t r.
Proof.
  intro Hne. unfold sort_values. fold le. fold defined.
  set (m := filter defined t) in *.
  destruct m as [|d m'] eqn:Em; [congruence|]. rewrite <- Em in *.
  assert (Hr : rev m <> []).
  { intro H. apply (f_equal (@rev A)) in H. rewrite rev_involutive in H.
    now subst m; rewrite Em in H. }
  destruct (sort_last_last_max le le_total le_trans d (rev m) Hr)
    as (l1 & r & l2 & El & Hl & H1 & H2).
  exists r. split.
  - rewrite <- Hl. apply head1_rev_last.
    intro H. now apply sort_nil_inv in H.
  - assert (Hm : filter defined t = rev l2 ++ r :: rev l1).
    { fold m. rewrite <- (rev_involutive m), El, rev_app_distr. simpl.
      now rewrite <- app_assoc. }
    destruct (filter_split _ _ _ _ _ Hm) as (t1 & t2 & -> & F1 & F2 & Hd).
    exists t1, t2. split; [reflexivity|].
    split; [unfold defined in Hd; now destruct (isna (key r))|].
    split; apply Forall_forall; intros x Hx;
      destruct (defined x) eqn:Ex;
      try (left; now apply (defined_false _ x Hx)); right.
    + assert (Hin : In x (rev l2)).
      { rewrite <- F1. apply filter_In. auto. }
      apply in_rev in Hin. rewrite Forall_forall in H2.
      unfold cell_ltb. specialize (H2 _ Hin). unfold le in H2.
      now rewrite H2.
    + assert (Hin : In x (rev l1)).
      { rewrite <- F2. apply filter_In. auto. }
      apply in_rev in Hin. rewrite Forall_forall in H1.
      exact (H1 _ Hin).
Qed.

(** Ascending: the head is the first row with the least key. *)
Lemma sort_values_asc_head (t : list A) :
  filter defined t <> [] ->
  exists r, head1 (sort_values key true t) = [r] /\ first_min key t r.
Proof.
  intro Hne. unfold sort_values. fold le. fold defined.
  destruct (sort_head_first_min le le_total le_trans _ Hne)
    as (l1 & r & l2 & El & Hh & H1 & H2).
  exists r. split.
  - destruct (sort le (filter defined t)); [discriminate|].
    simpl in Hh. injection Hh as ->. reflexivity.
  - destruct (filter_split _ _ _ _ _ El) as (t1 & t2 & -> & F1 & F2 & Hd).
    exists t1, t2. split; [reflexivity|].
    split; [unfold defined in Hd; now destruct (isna (key r))|].
    split; apply Forall_forall; intros x Hx;
      destruct (defined x) eqn:Ex;
      try (left; now apply (defined_false _ x Hx)); right.
    + assert (Hin : In x l1).
      { rewrite <- F1. apply filter_In. auto. }
      rewrite Forall_forall in H1. specialize (H1 _ Hin).
      unfold cell_ltb. unfold le in H1. now rewrite H1.
    + assert (Hin : In x l2).
      { rewrite <- F2. apply filter_In. auto. }
      rewrite Forall_forall in H2. exact (H2 _ Hin).
Qed.

(** With no defined key there is nothing to sort. *)
Lemma sort_values_all_na (asc : bool) (t : list A) :
  filter defined t = [] ->
  sort_values key asc t = filter (fun r => isna (key r)) t.
Proof.
  intro H. unfold sort_values. fold defined. rewrite H.
  now destruct asc.
Qed.
End SortValues.

(** ** Drop-off cells *)

Lemma Qeq_bool_inject_Z (c : Z) : Qeq_bool (inject_Z c) 0 = (c =? 0).
Proof.
  destruct (c =? 0) eqn:E.
  - apply Z.eqb_eq in E. now subst.
  - apply Z.eqb_neq in E. apply not_true_is_false. intro H.
    apply Qeq_bool_iff in H. apply E.
    unfold Qeq in H. simpl in H. lia.
Qed.

Lemma Qcompare_minus_inject_Z (n : Z) :
  Qcompare (inject_Z 0 - inject_Z n) 0 = (0 ?= n).
Proof.
  unfold Qcompare, Qminus, Qplus, Qopp, inject_Z. cbn [Qnum Qden].
  replace ((0 * 1 + - n * 1) * 1) with (- n) by ring.
  replace (0 * Z.pos (1 * 1)) with (- 0) by reflexivity.
  apply Z.compare_opp.
Qed.

(** The drop-off of a stage with a successor, case by case. *)
Lemma dropoff_cases (c n : Z) :
  dropoff c (Some n) =
  if c =? 0 then
    match n ?= 0 with
    | Eq => NA
    | Gt => NegInf
    | Lt => PosInf
    end
  else Num (round_q ((inject_Z c - inject_Z n) / inject_Z c) 4).
Proof.
  unfold dropoff, true_div. cbn [option_map].
  rewrite Qeq_bool_inject_Z.
  destruct (c =? 0) eqn:E; [|reflexivity].
  apply Z.eqb_eq in E. subst c.
  rewrite Qcompare_minus_inject_Z, (Z.compare_antisym n 0).
  now destruct (n ?= 0).
Qed.

Lemma dropoff_last (c : Z) : dropoff c None = NA.
Proof. reflexivity. Qed.


(** ** Funnel *)

Lemma funnel_stages (df : list Row) : map stage (funnel df) = stages.
Proof. reflexivity. Qed.

Lemma filter_idem {A : Type} (p : A -> bool) (l : list A) :
  filter p (filter p l) = filter p l.
Proof.
  induction l as [|x l IH]; simpl; [reflexivity|].
  destruct (p x) eqn:E; simpl; [rewrite E|]; now rewrite IH.
Qed.





(** ** Best and worst channel *)

(** Under a stable sort the best channel is the first row, in the order of
    the grouped table, among those with the greatest roas, and the worst
    channel the first row among those with the least roas. *)
Lemma stable_sort_first_occurrence (t : list ChannelMetrics) :
  (exists r, In r t /\ isna (cm_roas r) = false) ->
  exists b w,
    best_by sort_stable t = [b] /\ first_max cm_roas t b /\
    worst_by sort_stable t = [w] /\ first_min cm_roas t w.
Proof.
  change (best_by sort_stable t) with (best t).
  change (worst_by sort_stable t) with (worst t).
  intros (r & Hin & Hr).
  assert (Hne : filter (fun x => negb (isna (cm_roas x))) t <> []).
  { intro H.
    assert (Hf : In r (filter (fun x => negb (isna (cm_roas x))) t)).
    { apply filter_In. now rewrite Hr. }
    now rewrite H in Hf. }
  destruct (sort_values_desc_head cm_roas t Hne) as (b & Hb & Hmax).
  destruct (sort_values_asc_head cm_roas t Hne) as (w & Hw & Hmin).
  now exists b, w.
Qed.

(** ** Strings, [unique] and [sorted] *)

Lemma string_leb_trans (x y z : string) :
  String.leb x y = true -> String.leb y z = true -> String.leb x z = true.
Proof.
  unfold String.leb. intros Hxy Hyz.
  destruct (String.compare x y) eqn:Exy; try discriminate;
    destruct (String.compare y z) eqn:Eyz; try discriminate;
    try (apply String.compare_eq_iff in Exy; subst x; now rewrite Eyz);
    try (apply String.compare_eq_iff in Eyz; subst z; now rewrite Exy).
  apply String_as_OT.cmp_lt in Exy, Eyz.
  pose proof (String_as_OT.lt_trans _ _ _ Exy Eyz) as H.
  apply String_as_OT.cmp_lt in H. unfold String_as_OT.cmp in H.
  now rewrite H.
Qed.

Lemma string_ltb_leb (x y : string) :
  String.leb x y = true -> x <> y -> String.ltb x y = true.
Proof.
  unfold String.leb, String.ltb. intros H Hne.
  destruct (String.compare x y) eqn:E; try discriminate; [|reflexivity].
  apply String.compare_eq_iff in E. contradiction.
Qed.

Lemma mem_In (s : string) (l : list string) : mem s l = true <-> In s l.
Proof.
  unfold mem. rewrite existsb_exists. split.
  - intros (x & Hx & E). apply String.eqb_eq in E. now subst.
  - intro H. exists s. split; [exact H | apply String.eqb_refl].
Qed.

Section UniqueFacts.
Context {K : Type} (eqb : K -> K -> bool).
Hypothesis eqb_spec : forall x y, eqb x y = true <-> x = y.

Lemma In_unique (x : K) (l : list K) : In x (unique eqb l) <-> In x l.
Proof.
  induction l as [|y l IH]; simpl; [tauto|].
  rewrite filter_In, IH. split.
  - tauto.
  - intros [->|H]; [now left|].
    destruct (eqb y x) eqn:E.
    + left. now apply eqb_spec.
    + right. now split.
Qed.

Lemma NoDup_unique (l : list K) : NoDup (unique eqb l).
Proof.
  induction l as [|y l IH]; simpl; constructor.
  - rewrite filter_In. intros [_ H].
    rewrite (proj2 (eqb_spec y y) eq_refl) in H. discriminate.
  - now apply NoDup_filter.
Qed.
End UniqueFacts.

(** A duplicate-free list of strings is sorted strictly. *)
Lemma sorted_strict (l : list string) :
  NoDup l ->
  StronglySorted (fun a b => String.ltb a b = true) (sorted l).
Proof.
  intro Hnd. unfold sorted.
  assert (Hnd' : NoDup (sort String.leb l)).
  { eapply Permutation_NoDup; [|exact Hnd].
    apply Permutation_sym, sort_perm. }
  pose proof (sort_sorted String.leb String.leb_total string_leb_trans l)
    as Hs.
  induction Hs as [|x s Hs IH Hx]; constructor.
  - apply IH. now inversion Hnd'.
  - inversion_clear Hnd' as [|? ? Hnin _].
    rewrite Forall_forall in *. intros y Hy.
    apply string_ltb_leb; [now apply Hx|]. intros ->. contradiction.
Qed.

Lemma In_sorted (c : string) (l : list string) : In c (sorted l) <-> In c l.
Proof. apply In_sort. Qed.

(** ** Loader and validator *)

(** C10. An uploaded file takes precedence over the sample request: the
    frame is the upload whenever there is one, whatever the sample button
    and the sample file are; the sample is used only without an upload, and
    with neither the run stops with the informational message. *)
Theorem upload_takes_precedence (ui : Widgets) (f s s' : DataFrame)
    (use_sample use_sample' : bool) :
  load (Some f) use_sample s = ret f /\
  app ui (Some f) use_sample s = app ui (Some f) use_sample' s' /\
  load None true s = ret s /\
  load None false s = ([Info], Stopped) /\
  app ui None false s = ([Info], Stopped).
Proof. repeat split. Qed.

Lemma missing_spec (df : DataFrame) (c : string) :
  In c (sorted (missing df)) <-> In c required /\ ~ In c (columns df).
Proof.
  rewrite In_sorted. unfold missing. rewrite filter_In.
  rewrite negb_true_iff, <- not_true_iff_false, mem_In. tauto.
Qed.

Lemma NoDup_required : NoDup required.
Proof.
  unfold required.
  repeat (constructor; [simpl; intuition discriminate|]). constructor.
Qed.

(** C7. When the header is ASCII text and, once normalised, lacks a
    required column, the run shows one error carrying the missing names in
    ascending order (exactly the required names absent from the header)
    and stops there: no metric, chart, table or insight is rendered. *)
Theorem missing_columns_halt (ui : Widgets) (uploaded : option DataFrame)
    (use_sample : bool) (sample_data df : DataFrame) :
  load uploaded use_sample sample_data = ret df ->
  Forall (fun c => ascii_only c = true) (columns df) ->
  missing (normalise_columns df) <> [] ->
  let names := sorted (missing (normalise_columns df)) in
  app ui uploaded use_sample sample_data = ([Error names], Stopped) /\
  StronglySorted (fun a b => String.ltb a b = true) names /\
  (forall c, In c names <->
             In c required /\ ~ In c (columns (normalise_columns df))).
Proof.
  intros Hload _ Hmiss names. split; [|split].
  - unfold app. rewrite Hload. cbn [bind ret].
    unfold validate.
    destruct (missing (normalise_columns df)) eqn:E; [congruence|].
    reflexivity.
  - apply sorted_strict. apply NoDup_filter, NoDup_required.
  - intro c. apply missing_spec.
Qed.

Lemma missing_columns_halt_witness :
  let df := mkDataFrame (removelast header) abc in
  let names := sorted (missing (normalise_columns df)) in
  app untouched (Some df) false df = ([Error names], Stopped) /\
  StronglySorted (fun a b => String.ltb a b = true) names /\
  (forall c, In c names <->
             In c required /\ ~ In c (columns (normalise_columns df))).
Proof.
  apply (missing_columns_halt untouched
           (Some (mkDataFrame (removelast header) abc)) false
           (mkDataFrame (removelast header) abc)
           (mkDataFrame (removelast header) abc)).
  - reflexivity.
  - repeat constructor.
  - discriminate.
Defined.

(** A frame without [revenue]: the error names that column alone. *)
Example missing_revenue :
  app untouched (Some (mkDataFrame (removelast header) abc)) true
      (mkDataFrame header abc) = ([Error ["revenue"%string]], Stopped).
Proof. reflexivity. Qed.

(** ** Filterer *)

Lemma filter_all {A : Type} (p : A -> bool) (l : list A) :
  (forall x, In x l -> p x = true) -> filter p l = l.
Proof.
  induction l as [|x l IH]; intro H; simpl; [reflexivity|].
  rewrite (H x (or_introl eq_refl)). f_equal.
  apply IH. intros y Hy. apply H. now right.
Qed.

Lemma filter_comm {A : Type} (p q : A -> bool) (l : list A) :
  filter p (filter q l) = filter q (filter p l).
Proof.
  induction l as [|x l IH]; simpl; [reflexivity|].
  destruct (p x) eqn:Ep, (q x) eqn:Eq; simpl;
    rewrite ?Ep, ?Eq, IH; reflexivity.
Qed.

Lemma fold_left_min_le (l : list Z) (x y : Z) :
  In y (x :: l) -> fold_left Z.min l x <= y.
Proof.
  revert x y. induction l as [|z l IH]; intros x y H; simpl.
  - destruct H as [->|[]]. lia.
  - destruct H as [->|[->|H]].
    + transitivity (Z.min y z); [apply IH; now left | lia].
    + transitivity (Z.min x y); [apply IH; now left | lia].
    + apply IH. now right.
Qed.

Lemma fold_left_max_ge (l : list Z) (x y : Z) :
  In y (x :: l) -> y <= fold_left Z.max l x.
Proof.
  revert x y. induction l as [|z l IH]; intros x y H; simpl.
  - destruct H as [->|[]]. lia.
  - destruct H as [->|[->|H]].
    + transitivity (Z.max y z); [lia | apply IH; now left].
    + transitivity (Z.max x y); [lia | apply IH; now left].
    + apply IH. now right.
Qed.

(** The default range keeps every row. *)
Lemma default_range_all (df : list Row) :
  filter_dates (default_start df) (default_end df) df = df.
Proof.
  destruct df as [|r0 df]; [reflexivity|].
  apply filter_all. intros r Hr.
  unfold mask, default_start, default_end, untouched, dt_date.
  cbn [date_input map series_min series_max option_map].
  apply andb_true_intro. split; apply Z.leb_le;
    apply Z.div_le_mono; try lia.
  - apply fold_left_min_le. change (In (r_date r) (map r_date (r0 :: df))).
    now apply in_map.
  - apply fold_left_max_ge. change (In (r_date r) (map r_date (r0 :: df))).
    now apply in_map.
Qed.

(** C4 (as amended). The channels offered, and selected by default, are
    the distinct channel values of the rows inside the chosen date range,
    in strictly ascending order; under the default range, which keeps every
    row, they are the distinct channels of the whole dataset. *)
Theorem channel_options_of_date_range (start end_ : Z) (df : list Row) :
  StronglySorted (fun a b => String.ltb a b = true)
                 (channel_options start end_ df) /\
  (forall c, In c (channel_options start end_ df) <->
             exists r, In r df /\
                       start <= dt_date (r_date r) <= end_ /\
                       r_channel r = c) /\
  channel_options (default_start df) (default_end df) df =
    sorted (unique String.eqb (map r_channel df)).
Proof.
  split; [|split].
  - apply sorted_strict, NoDup_unique, String.eqb_eq.
  - intro c. unfold channel_options, filter_dates.
    rewrite In_sorted, (In_unique _ String.eqb_eq), in_map_iff.
    split.
    + intros (r & Hc & Hr). apply filter_In in Hr. destruct Hr as [Hr Hm].
      exists r. unfold mask in Hm. apply andb_prop in Hm.
      destruct Hm as [H1 H2]. apply Z.leb_le in H1, H2. auto.
    + intros (r & Hr & [H1 H2] & Hc). exists r. split; [exact Hc|].
      apply filter_In. split; [exact Hr|].
      unfold mask. apply andb_true_intro. split; now apply Z.leb_le.
  - unfold channel_options. now rewrite default_range_all.
Qed.

(** C4, as stated, fails: with the range narrowed to the first day, the
    channel of the second day is not offered. *)
Lemma channel_options_not_full_dataset :
  channel_options 1 1 two_days = ["A"%string] /\
  sorted (unique String.eqb (map r_channel two_days)) =
    ["A"%string; "B"%string] /\
  channel_options 1 1 two_days <>
    sorted (unique String.eqb (map r_channel two_days)).
Proof. repeat split. discriminate. Qed.

(** C9. Filtering again with the same range and channels changes nothing;
    and the two filter statements only allocate: every frame object that
    existed before them, the source included, is as it was, and the
    variable is rebound to a fresh object holding the filtered rows. *)
Theorem filter_idempotent_pure (start end_ : Z) (channels : list string)
    (df : list Row) (h : Heap.heap) (p : Heap.ref) :
  filter_df start end_ channels (filter_df start end_ channels df) =
    filter_df start end_ channels df /\
  let (h', p') := Heap.filter_stmts start end_ channels h p in
  firstn (List.length h) h' = h /\
  (List.length h < p')%nat /\
  Heap.deref h' p' = filter_df start end_ channels (Heap.deref h p).
Proof.
  split.
  - unfold filter_df, filter_channels, filter_dates.
    rewrite (filter_comm (mask start end_)
               (fun r => mem (r_channel r) channels)
               (filter (mask start end_) df)).
    rewrite (filter_idem (mask start end_)). apply filter_idem.
  - unfold Heap.filter_stmts, Heap.alloc, Heap.deref, filter_df.
    rewrite <- app_assoc, firstn_app, firstn_all, Nat.sub_diag.
    rewrite app_nil_r. split; [reflexivity|].
    rewrite !length_app. cbn [List.length]. split; [lia|].
    rewrite !app_nth2; rewrite ?length_app; cbn [List.length]; try lia.
    rewrite Nat.sub_diag.
    replace (List.length h + 1 - List.length h - 1)%nat with 0%nat by lia.
    reflexivity.
Qed.

(** ** Channel performance *)

(** Group totals add up to the grand total, for any addition that is
    associative and commutative up to the equality at hand. *)
Section GroupSums.
Context {V : Type} (add : V -> V -> V) (zero : V) (R : V -> V -> Prop).
Context {R_equiv : Equivalence R}.
Context {add_proper : Proper (R ==> R ==> R) add}.
Hypothesis add_assoc : forall x y z, R (add x (add y z)) (add (add x y) z).
Hypothesis add_comm : forall x y, R (add x y) (add y x).
Hypothesis add_zero_l : forall x, R (add zero x) x.
Variable val : Row -> V.

Let total (l : list V) : V := fold_right add zero l.
Let G (df : list Row) (c : string) : V := total (map val (group c df)).

Lemma total_zeros (ks : list string) :
  R (total (map (G []) ks)) zero.
Proof.
  induction ks as [|k ks IH]; simpl; [reflexivity|].
  rewrite IH. apply add_zero_l.
Qed.

Lemma G_cons (r : Row) (df : list Row) (c : string) :
  G (r :: df) c =
  if String.eqb (r_channel r) c then add (val r) (G df c) else G df c.
Proof.
  unfold G, group. simpl. now destruct (String.eqb (r_channel r) c).
Qed.

Lemma total_other (r : Row) (df : list Row) (ks : list string) :
  ~ In (r_channel r) ks ->
  map (G (r :: df)) ks = map (G df) ks.
Proof.
  intro H. apply map_ext_in. intros c Hc. rewrite G_cons.
  destruct (String.eqb_spec (r_channel r) c); [|reflexivity].
  subst. contradiction.
Qed.

Lemma total_one (r : Row) (df : list Row) (ks : list string) :
  NoDup ks -> In (r_channel r) ks ->
  R (total (map (G (r :: df)) ks)) (add (val r) (total (map (G df) ks))).
Proof.
  induction 1 as [|k ks Hk Hnd IH]; intro Hin; [contradiction|].
  cbn [map total fold_right]. rewrite G_cons.
  destruct (String.eqb_spec (r_channel r) k) as [E|E].
  - rewrite total_other by now rewrite E.
    symmetry. apply add_assoc.
  - destruct Hin as [Hin|Hin]; [congruence|].
    fold (total (map (G (r :: df)) ks)). rewrite (IH Hin).
    fold (total (map (G df) ks)).
    rewrite add_assoc, (add_comm (G df k)), <- add_assoc. reflexivity.
Qed.

Lemma group_totals (ks : list string) (df : list Row) :
  NoDup ks ->
  (forall r, In r df -> In (r_channel r) ks) ->
  R (total (map (G df) ks)) (total (map val df)).
Proof.
  intros Hnd. induction df as [|r df IH]; intro Hin.
  - apply total_zeros.
  - rewrite total_one; [|exact Hnd|apply Hin; now left].
    cbn [map total fold_right]. fold (total (map val df)).
    rewrite IH; [reflexivity|]. intros x Hx. apply Hin. now right.
Qed.
End GroupSums.

(** int64 addition, up to the value it wraps to. *)
Lemma int64_mod (x y : Z) :
  int64 x = int64 y <-> x mod 2 ^ 64 = y mod 2 ^ 64.
Proof.
  unfold int64. split; intro H.
  - assert (E : (x + 2 ^ 63) mod 2 ^ 64 = (y + 2 ^ 63) mod 2 ^ 64) by lia.
    rewrite <- (Z.add_simpl_r x (2 ^ 63)), <- (Z.add_simpl_r y (2 ^ 63)).
    now rewrite Zminus_mod, E, <- Zminus_mod.
  - f_equal. now rewrite Z.add_mod, H, <- Z.add_mod by lia.
Qed.

Lemma int64_idem (x : Z) : int64 (int64 x) = int64 x.
Proof.
  apply int64_mod. unfold int64.
  rewrite Zminus_mod, Z.mod_mod, <- Zminus_mod by lia.
  f_equal. lia.
Qed.

#[local] Instance same64_equiv : Equivalence same64.
Proof.
  unfold same64. split.
  - now intro x.
  - now intros x y H.
  - intros x y z H1 H2. now rewrite H1.
Qed.

#[local] Instance add64_proper :
  Proper (same64 ==> same64 ==> same64) add64.
Proof.
  intros x x' Hx y y' Hy. unfold same64, add64 in *.
  f_equal. apply int64_mod. apply int64_mod in Hx, Hy.
  now rewrite Z.add_mod, Hx, Hy, <- Z.add_mod by lia.
Qed.

Lemma add64_assoc (x y z : Z) :
  same64 (add64 x (add64 y z)) (add64 (add64 x y) z).
Proof.
  unfold same64, add64. f_equal. apply int64_mod.
  rewrite Z.add_mod, (proj1 (int64_mod _ _) (int64_idem (y + z))),
    <- Z.add_mod by lia.
  rewrite (Z.add_mod (int64 (x + y))),
    (proj1 (int64_mod _ _) (int64_idem (x + y))), <- Z.add_mod by lia.
  f_equal. lia.
Qed.

Lemma add64_comm (x y : Z) : same64 (add64 x y) (add64 y x).
Proof. unfold same64, add64. now rewrite Z.add_comm. Qed.

Lemma add64_0_l (x : Z) : same64 (add64 0 x) x.
Proof. unfold same64, add64. apply int64_idem. Qed.

(** A sum is an int64 already. *)
Lemma same64_sum_Z (l l' : list Z) :
  same64 (sum_Z l) (sum_Z l') -> sum_Z l = sum_Z l'.
Proof.
  assert (H : forall k, int64 (sum_Z k) = sum_Z k).
  { intros [|x k]; [reflexivity | apply int64_idem]. }
  unfold same64. now rewrite !H.
Qed.

Lemma channels_NoDup (df : list Row) :
  NoDup (sorted (unique String.eqb (map r_channel df))).
Proof.
  eapply Permutation_NoDup;
    [apply Permutation_sym, sort_perm | apply NoDup_unique, String.eqb_eq].
Qed.

Lemma channels_cover (df : list Row) (r : Row) :
  In r df -> In (r_channel r) (sorted (unique String.eqb (map r_channel df))).
Proof.
  intro H. rewrite In_sorted, (In_unique _ String.eqb_eq). now apply in_map.
Qed.

(** In exact arithmetic the per-channel sums of spend and revenue add up
    to the totals of the frame. *)
Lemma channel_money_sums_exact (df : list Row) :
  (sum_Q (map cm_spend (by_ch df)) == spend df)%Q /\
  (sum_Q (map cm_revenue (by_ch df)) == revenue df)%Q.
Proof.
  unfold by_ch. rewrite !map_map. cbn [channel_row cm_spend cm_revenue].
  split.
  - apply (group_totals Qplus (0 # 1)%Q Qeq Qplus_assoc Qplus_comm
             Qplus_0_l r_spend);
      [apply channels_NoDup | apply channels_cover].
  - apply (group_totals Qplus (0 # 1)%Q Qeq Qplus_assoc Qplus_comm
             Qplus_0_l r_revenue);
      [apply channels_NoDup | apply channels_cover].
Qed.

(** C8 (as amended). On every filtered frame, and so whenever the
    selection covers all channels, the per-channel sums of the integer
    columns purchase and visits add up to exactly the KPI totals. *)
Theorem channel_counts_match_kpis (df : list Row) :
  sum_Z (map cm_purchase (by_ch df)) = purchases df /\
  sum_Z (map cm_visits (by_ch df)) = visits df.
Proof.
  unfold by_ch. rewrite !map_map. cbn [channel_row cm_purchase cm_visits].
  split.
  - apply same64_sum_Z.
    apply (group_totals add64 0 same64 add64_assoc add64_comm add64_0_l
             r_purchase);
      [apply channels_NoDup | apply channels_cover].
  - apply same64_sum_Z.
    apply (group_totals add64 0 same64 add64_assoc add64_comm add64_0_l
             r_visits);
      [apply channels_NoDup | apply channels_cover].
Qed.

(** C8, as stated, fails for the money columns: spending 0.1 + 0.2 in one
    channel and 0.2 + 0.1 in the other gives the KPI total 0.6 in float64,
    and two channel totals of 0.30000000000000004 that add up to
    0.6000000000000001. *)
Lemma channel_spend_differs_in_float64 :
  PrimFloat.eqb (F64.spend split_spend) (F64.of_Q (6 # 10)) = true /\
  map (fun x => PrimFloat.eqb x (PrimFloat.add (F64.of_Q (1 # 10))
                                               (F64.of_Q (2 # 10))))
      (F64.by_ch_spend split_spend) = [true; true] /\
  PrimFloat.eqb (F64.np_sum (F64.by_ch_spend split_spend))
                (F64.spend split_spend) = false /\
  PrimFloat.ltb (F64.spend split_spend)
                (F64.np_sum (F64.by_ch_spend split_spend)) = true.
Proof. repeat split. Qed.

(** The three ratios of a channel row, case by case: [cac] and [cvr] are
    missing on a zero denominator, [roas] divides unguarded. *)
Lemma channel_row_ratios (df : list Row) (c : string) :
  let r := channel_row df c in
  cm_cac r =
    (if cm_purchase r =? 0 then NA
     else Num (round_q (cm_spend r / inject_Z (cm_purchase r)) 2)) /\
  cm_cvr r =
    (if cm_visits r =? 0 then NA
     else Num (round_q (inject_Z (cm_purchase r) / inject_Z (cm_visits r)) 4))
  /\
  cm_roas r =
    (if Qeq_bool (cm_spend r) 0 then
       match Qcompare (cm_revenue r) 0 with
       | Gt => PosInf
       | Lt => NegInf
       | Eq => NA
       end
     else Num (round_q (cm_revenue r / cm_spend r) 2)).
Proof.
  cbn [channel_row cm_cac cm_cvr cm_roas cm_spend cm_revenue cm_purchase
       cm_visits].
  unfold replace_zero_NA, true_div. repeat split.
  - destruct (_ =? 0) eqn:E; [reflexivity|].
    now rewrite Qeq_bool_inject_Z, E.
  - destruct (sum_Z (map r_visits _) =? 0) eqn:E; [reflexivity|].
    now rewrite Qeq_bool_inject_Z, E.
  - destruct (Qeq_bool _ 0); [destruct (Qcompare _ 0)|]; reflexivity.
Qed.

(** C2 at the failing input: a channel with no spend and some revenue has
    an infinite roas, not a missing one, and it is reported as the best
    channel; its [cac] and [cvr] are as the claim says. *)
Theorem roas_zero_spend_is_infinite :
  map (fun r => (cm_channel r, cm_spend r, cm_roas r)) (by_ch organic) =
    [("organic"%string, 0%Q, PosInf); ("paid"%string, 100%Q, Num 3)] /\
  map (fun r => isna (cm_roas r)) (by_ch organic) = [false; false] /\
  map cm_channel (best (by_ch organic)) = ["organic"%string].
Proof. repeat split. Qed.

(** ** Insights on an empty selection *)

Lemma render_nil_raises :
  snd (render []) = Raised IndexError /\
  forall line, ~ In (Write line) (fst (render [])).
Proof.
  split; [reflexivity|]. intros line H. cbn in H.
  repeat (destruct H as [H|H]; [discriminate|]). exact H.
Qed.


(** C1 at the failing input: with every channel deselected the filtered
    frame is empty; the KPIs, charts and tables are rendered, and the
    insight generator raises [IndexError] before writing any statement. *)
Theorem empty_selection_raises_IndexError :
  let run :=
    app deselect_all (Some (mkDataFrame header abc)) false
        (mkDataFrame header []) in
  snd run = Raised IndexError /\
  (forall line, ~ In (Write line) (fst run)) /\
  insights (by_ch []) (funnel []) = ([], Raised IndexError).
Proof.
  split; [reflexivity|]. split; [|reflexivity].
  intros line H. cbn in H.
  repeat (destruct H as [H|H]; [discriminate|]). exact H.
Qed.

(** * Further properties of the script *)

(** ** [sort_values] as a whole (lines 101, 105, 106, 109) *)

Lemma filter_partition_perm {A : Type} (p : A -> bool) (l : list A) :
  Permutation (filter (fun x => negb (p x)) l ++ filter p l) l.
Proof.
  induction l as [|x l IH]; simpl; [constructor|].
  destruct (p x); simpl.
  - apply Permutation_sym, Permutation_cons_app, Permutation_sym, IH.
  - now constructor.
Qed.

Lemma StronglySorted_snoc {A : Type} (R : A -> A -> Prop) (l : list A)
    (x : A) :
  StronglySorted R l -> Forall (fun a => R a x) l ->
  StronglySorted R (l ++ [x]).
Proof.
  induction 1 as [|y l Hs IH Hy]; intro Hx; simpl.
  - repeat constructor.
  - inversion_clear Hx as [|? ? Hyx Hl]. constructor; [now apply IH|].
    apply Forall_app. split; [exact Hy | now constructor].
Qed.

Lemma StronglySorted_rev_flip {A : Type} (R : A -> A -> Prop) (l : list A) :
  StronglySorted R l -> StronglySorted (fun a b => R b a) (rev l).
Proof.
  induction 1 as [|x l Hs IH Hx]; simpl; [constructor|].
  apply StronglySorted_snoc; [exact IH|].
  apply Forall_rev. exact Hx.
Qed.

Lemma sort_values_perm {A : Type} (key : A -> cell) (asc : bool)
    (l : list A) :
  Permutation (sort_values key asc l) l.
Proof.
  unfold sort_values.
  set (le := fun x y => cell_leb (key x) (key y)).
  set (m := filter (fun r => negb (isna (key r))) l).
  transitivity (m ++ filter (fun r => isna (key r)) l);
    [|apply filter_partition_perm].
  apply Permutation_app_tail. destruct asc; [apply sort_perm|].
  rewrite <- Permutation_rev, sort_perm.
  apply Permutation_sym, Permutation_rev.
Qed.

(** X1. Sorting a table by a column loses and invents no row; the rows
    whose key is missing come last, in their original order, and the
    others come first in ascending (descending) order of the key. *)
Theorem sort_values_ordered {A : Type} (key : A -> cell) (asc : bool)
    (l : list A) :
  exists s,
    sort_values key asc l = s ++ filter (fun r => isna (key r)) l /\
    Forall (fun r => isna (key r) = false) s /\
    StronglySorted
      (fun a b => if asc then cell_leb (key a) (key b) = true
                  else cell_leb (key b) (key a) = true) s /\
    Permutation (sort_values key asc l) l.
Proof.
  set (le := fun x y => cell_leb (key x) (key y)).
  set (m := filter (fun r => negb (isna (key r))) l).
  assert (Hm : Forall (fun r => isna (key r) = false) m).
  { apply Forall_forall. intros r Hr. apply filter_In in Hr.
    destruct Hr as [_ Hr]. now destruct (isna (key r)). }
  assert (Hle_total : forall x y, le x y = true \/ le y x = true)
    by (intros; apply cell_leb_total).
  assert (Hle_trans :
            forall x y z, le x y = true -> le y z = true -> le x z = true)
    by (intros x y z; apply cell_leb_trans).
  exists (if asc then sort le m else rev (sort le (rev m))).
  assert (Hp : Permutation (if asc then sort le m else rev (sort le (rev m)))
                           m).
  { destruct asc; [apply sort_perm|].
    rewrite <- Permutation_rev, sort_perm. apply Permutation_sym,
      Permutation_rev. }
  split; [reflexivity|]. split; [|split].
  - eapply Permutation_Forall; [apply Permutation_sym, Hp | exact Hm].
  - destruct asc.
    + apply (sort_sorted le Hle_total Hle_trans).
    + apply (StronglySorted_rev_flip
               (fun a b => cell_leb (key a) (key b) = true)).
      apply (sort_sorted le Hle_total Hle_trans).
  - unfold sort_values. fold le. fold m.
    rewrite Hp. apply filter_partition_perm.
Qed.

(** ** The rows picked by the insights (lines 105-106) *)

Lemma head1_sort_values_In {A : Type} (key : A -> cell) (asc : bool)
    (t : list A) :
  t <> [] -> exists x, head1 (sort_values key asc t) = [x] /\ In x t.
Proof.
  intro Hne. pose proof (sort_values_perm key asc t) as Hp.
  destruct (sort_values key asc t) as [|x s].
  - apply Permutation_nil in Hp. contradiction.
  - exists x. split; [reflexivity|].
    apply (Permutation_in _ Hp). now left.
Qed.

(** X2. The best and the worst channel are rows of the table, one each as
    soon as the table has a row (even when no roas is defined) and none
    for the empty table; on a table of one row both are that row. *)
Theorem best_worst_rows (t : list ChannelMetrics) :
  match t with
  | [] => best t = [] /\ worst t = []
  | _ :: _ =>
      exists b w, best t = [b] /\ worst t = [w] /\ In b t /\ In w t
  end /\
  forall r, best [r] = [r] /\ worst [r] = [r].
Proof.
  split.
  - destruct t as [|r t]; [split; reflexivity|].
    destruct (head1_sort_values_In cm_roas false (r :: t)) as (b & Hb & Hib);
      [discriminate|].
    destruct (head1_sort_values_In cm_roas true (r :: t)) as (w & Hw & Hiw);
      [discriminate|].
    now exists b, w.
  - intro r. unfold best, worst, sort_values. simpl.
    now destruct (isna (cm_roas r)).
Qed.

(** ** The filters as a whole (lines 44-48) *)

Lemma filter_filter_and {A : Type} (p q : A -> bool) (l : list A) :
  filter q (filter p l) = filter (fun x => p x && q x) l.
Proof.
  induction l as [|x l IH]; simpl; [reflexivity|].
  destruct (p x); simpl; [destruct (q x)|]; now rewrite IH.
Qed.

(** X4. The filtered frame holds, in their original order, exactly the
    rows whose day lies in the closed range and whose channel is among the
    selected ones; the two filters can be applied in either order. *)
Theorem filter_df_rows (start end_ : Z) (channels : list string)
    (df : list Row) :
  filter_df start end_ channels df =
    filter (fun r => mask start end_ r && mem (r_channel r) channels) df /\
  filter_df start end_ channels df =
    filter_dates start end_ (filter_channels channels df) /\
  forall r, In r (filter_df start end_ channels df) <->
            In r df /\ start <= dt_date (r_date r) <= end_ /\
            In (r_channel r) channels.
Proof.
  unfold filter_df, filter_channels, filter_dates. split; [|split].
  - apply filter_filter_and.
  - apply filter_comm.
  - intro r. rewrite !filter_In, mem_In. unfold mask.
    rewrite andb_true_iff, !Z.leb_le. tauto.
Qed.

Lemma filter_channels_all (channels : list string) (df : list Row) :
  (forall r, In r df -> In (r_channel r) channels) ->
  filter_channels channels df = df.
Proof.
  intro H. apply filter_all. intros r Hr. apply mem_In. now apply H.
Qed.

(** X5. On a frame with rows, the values the widgets start with (the
    least and the greatest day of the frame, every offered channel) form a
    proper range and filter nothing out. *)
Theorem default_selection_keeps_all (df : list Row) :
  df <> [] ->
  let start := default_start df in
  let end_ := default_end df in
  start <= end_ /\
  (forall r, In r df -> start <= dt_date (r_date r) <= end_) /\
  filter_df start end_ (channel_options start end_ df) df = df.
Proof.
  intros Hne start end_.
  assert (Hall : filter_dates start end_ df = df)
    by apply default_range_all.
  assert (Hin : forall r, In r df -> start <= dt_date (r_date r) <= end_).
  { intros r Hr. rewrite <- Hall in Hr. apply filter_In in Hr.
    destruct Hr as [_ Hm]. unfold mask in Hm.
    apply andb_prop in Hm. destruct Hm as [H1 H2].
    apply Z.leb_le in H1, H2. lia. }
  split; [|split; [exact Hin|]].
  - destruct df as [|r df']; [congruence|].
    specialize (Hin r (or_introl eq_refl)). lia.
  - unfold filter_df, channel_options. rewrite Hall.
    apply filter_channels_all. intros r Hr. now apply channels_cover.
Qed.

Lemma default_selection_keeps_all_witness :
  let start := default_start abc in
  let end_ := default_end abc in
  start <= end_ /\
  (forall r, In r abc -> start <= dt_date (r_date r) <= end_) /\
  filter_df start end_ (channel_options start end_ abc) abc = abc.
Proof.
  apply (default_selection_keeps_all abc). discriminate.
Defined.




(** ** Rounding (lines 79, 97-99) *)

Lemma rint_error (y : Q) :
  (inject_Z (rint y) - (1 # 2) <= y <= inject_Z (rint y) + (1 # 2))%Q.
Proof.
  unfold rint.
  pose proof (Qfloor_le y) as Hlo. pose proof (Qlt_floor y) as Hhi.
  rewrite inject_Z_plus in Hhi. change (inject_Z 1) with 1%Q in Hhi.
  destruct (Qcompare_spec (y - inject_Z (Qfloor y)) (1 # 2)) as [E|E|E].
  - destruct (Z.even (Qfloor y)); rewrite ?inject_Z_plus;
      change (inject_Z 1) with 1%Q; lra.
  - lra.
  - rewrite inject_Z_plus. change (inject_Z 1) with 1%Q. lra.
Qed.

Lemma rint_between (a b : Z) (y : Q) :
  (inject_Z a <= y <= inject_Z b)%Q -> a <= rint y <= b.
Proof.
  intros [Ha Hb]. destruct (rint_error y) as [Hlo Hhi].
  assert (H1 : (inject_Z a <= inject_Z (rint y) + (1 # 2))%Q) by lra.
  assert (H2 : (inject_Z (rint y) - (1 # 2) <= inject_Z b)%Q) by lra.
  unfold Qle in H1, H2. simpl in H1, H2. lia.
Qed.

Lemma scale_pos (d : nat) : (0 < inject_Z (10 ^ Z.of_nat d))%Q.
Proof.
  replace 0%Q with (inject_Z 0) by reflexivity.
  rewrite <- Zlt_Qlt. apply Z.pow_pos_nonneg; lia.
Qed.

Lemma round_q_unit (q : Q) (d : nat) :
  (0 <= q <= 1)%Q -> (0 <= round_q q d <= 1)%Q.
Proof.
  intros [H0 H1]. unfold round_q. rewrite Qred_correct.
  set (s := 10 ^ Z.of_nat d).
  pose proof (scale_pos d) as Hs. fold s in Hs.
  assert (Hr : 0 <= rint (q * inject_Z s) <= s).
  { apply rint_between. split.
    - change (inject_Z 0) with 0%Q. nra.
    - nra. }
  destruct Hr as [Hr0 Hr1]. rewrite Zle_Qle in Hr0, Hr1.
  change (inject_Z 0) with 0%Q in Hr0. split.
  - apply Qle_shift_div_l; [exact Hs | lra].
  - apply Qle_shift_div_r; [exact Hs | lra].
Qed.

(** ** Integer totals (lines 53-54, 72, 85, 91-96) *)

Lemma int64_range (z : Z) : - 2 ^ 63 <= int64 z < 2 ^ 63.
Proof.
  unfold int64.
  pose proof (Z.mod_pos_bound (z + 2 ^ 63) (2 ^ 64) ltac:(lia)). lia.
Qed.

Lemma int64_small (z : Z) : - 2 ^ 63 <= z < 2 ^ 63 -> int64 z = z.
Proof. intro H. unfold int64. rewrite Z.mod_small; lia. Qed.

Lemma sum_nonneg (l : list Z) :
  Forall (fun x => 0 <= x) l -> 0 <= fold_right Z.add 0 l.
Proof. induction 1; simpl; lia. Qed.

Lemma sum_Z_no_overflow (l : list Z) :
  Forall (fun x => 0 <= x) l ->
  fold_right Z.add 0 l < 2 ^ 63 ->
  sum_Z l = fold_right Z.add 0 l.
Proof.
  induction 1 as [|x l Hx Hl IH]; intro Hfit; [reflexivity|].
  simpl in *. pose proof (sum_nonneg l Hl) as Hs.
  unfold add64. rewrite IH by lia. apply int64_small. lia.
Qed.

(** X8. An integer total is always an int64, and it is the true sum
    whenever the entries are not negative and the true sum fits. *)
Theorem sum_Z_exact (l : list Z) :
  - 2 ^ 63 <= sum_Z l < 2 ^ 63 /\
  (Forall (fun x => 0 <= x) l ->
   fold_right Z.add 0 l < 2 ^ 63 ->
   sum_Z l = fold_right Z.add 0 l).
Proof.
  split; [|apply sum_Z_no_overflow].
  destruct l as [|x l]; [simpl; lia | apply int64_range].
Qed.

Lemma sum_le {A : Type} (f g : A -> Z) (l : list A) :
  Forall (fun r => f r <= g r) l ->
  fold_right Z.add 0 (map f l) <= fold_right Z.add 0 (map g l).
Proof. induction 1; simpl; lia. Qed.

Lemma column_sum_exact (f : Row -> Z) (df : list Row) :
  Forall (fun r => 0 <= f r <= r_visits r) df ->
  fold_right Z.add 0 (map r_visits df) < 2 ^ 63 ->
  sum_Z (map f df) = fold_right Z.add 0 (map f df).
Proof.
  intros H Hfit. apply sum_Z_no_overflow.
  - apply Forall_map. eapply Forall_impl; [|exact H]. simpl. lia.
  - eapply Z.le_lt_trans; [|exact Hfit]. apply sum_le.
    eapply Forall_impl; [|exact H]. simpl. lia.
Qed.

Lemma dropoff_unit (c n : Z) :
  0 <= n <= c ->
  dropoff c (Some n) = NA \/
  exists x, dropoff c (Some n) = Num x /\ (0 <= x <= 1)%Q.
Proof.
  intros [Hn Hc]. rewrite dropoff_cases.
  destruct (Z.eqb_spec c 0) as [->|Hne].
  - replace n with 0 by lia. now left.
  - right. eexists. split; [reflexivity|]. apply round_q_unit.
    assert (Hpos : (0 < inject_Z c)%Q).
    { change 0%Q with (inject_Z 0). rewrite <- Zlt_Qlt. lia. }
    rewrite Zle_Qle in Hn, Hc. change (inject_Z 0) with 0%Q in Hn. split.
    + apply Qle_shift_div_l; [exact Hpos | lra].
    + apply Qle_shift_div_r; [exact Hpos | lra].
Qed.

(** X9. When every row's funnel narrows and the visits total fits an
    int64, the five counts are the true column sums, none is negative and
    none exceeds the count before it; every drop-off is then missing or a
    number between 0 and 1, never an infinity. *)
Theorem well_formed_funnel (df : list Row) :
  Forall well_formed df ->
  fold_right Z.add 0 (map r_visits df) < 2 ^ 63 ->
  counts df =
    map (fun f => fold_right Z.add 0 (map f df))
        [r_visits; r_signup; r_add_to_cart; r_checkout; r_purchase] /\
  Forall (fun c => 0 <= c) (counts df) /\
  StronglySorted Z.ge (counts df) /\
  Forall (fun s => dropoff_pct s = NA \/
                   exists x, dropoff_pct s = Num x /\ (0 <= x <= 1)%Q)
         (funnel df).
Proof.
  intros Hwf Hfit.
  assert (Hc : counts df =
               map (fun f => fold_right Z.add 0 (map f df))
                   [r_visits; r_signup; r_add_to_cart; r_checkout;
                    r_purchase]).
  { unfold counts. cbn [map].
    rewrite (column_sum_exact r_visits), (column_sum_exact r_signup),
      (column_sum_exact r_add_to_cart), (column_sum_exact r_checkout),
      (column_sum_exact r_purchase);
      first [ reflexivity
            | exact Hfit
            | eapply Forall_impl; [|exact Hwf];
              unfold well_formed; simpl; lia ]. }
  assert (H0 : 0 <= fold_right Z.add 0 (map r_purchase df)).
  { apply sum_nonneg, Forall_map. eapply Forall_impl; [|exact Hwf].
    unfold well_formed. simpl. lia. }
  assert (H1 : fold_right Z.add 0 (map r_purchase df)
               <= fold_right Z.add 0 (map r_checkout df)).
  { apply sum_le. eapply Forall_impl; [|exact Hwf].
    unfold well_formed. simpl. lia. }
  assert (H2 : fold_right Z.add 0 (map r_checkout df)
               <= fold_right Z.add 0 (map r_add_to_cart df)).
  { apply sum_le. eapply Forall_impl; [|exact Hwf].
    unfold well_formed. simpl. lia. }
  assert (H3 : fold_right Z.add 0 (map r_add_to_cart df)
               <= fold_right Z.add 0 (map r_signup df)).
  { apply sum_le. eapply Forall_impl; [|exact Hwf].
    unfold well_formed. simpl. lia. }
  assert (H4 : fold_right Z.add 0 (map r_signup df)
               <= fold_right Z.add 0 (map r_visits df)).
  { apply sum_le. eapply Forall_impl; [|exact Hwf].
    unfold well_formed. simpl. lia. }
  split; [exact Hc|].
  unfold funnel. rewrite Hc. cbn [map combine stages shift_m1 app].
  split; [|split].
  - repeat constructor; lia.
  - repeat constructor; lia.
  - do 4 (apply Forall_cons;
          [cbn [dropoff_pct]; apply dropoff_unit; lia|]).
    apply Forall_cons; [now left | apply Forall_nil].
Qed.

Lemma well_formed_funnel_witness :
  counts abc =
    map (fun f => fold_right Z.add 0 (map f abc))
        [r_visits; r_signup; r_add_to_cart; r_checkout; r_purchase] /\
  Forall (fun c => 0 <= c) (counts abc) /\
  StronglySorted Z.ge (counts abc) /\
  Forall (fun s => dropoff_pct s = NA \/
                   exists x, dropoff_pct s = Num x /\ (0 <= x <= 1)%Q)
         (funnel abc).
Proof.
  apply (well_formed_funnel abc).
  - unfold abc, well_formed. repeat constructor; simpl; lia.
  - vm_compute. reflexivity.
Defined.

(** ** Grouped tables (lines 85, 91-96) *)

Lemma StronglySorted_weaken {A : Type} (R R' : A -> A -> Prop) (l : list A) :
  (forall a b, R a b -> R' a b) ->
  StronglySorted R l -> StronglySorted R' l.
Proof.
  intros HR. induction 1 as [|x l Hs IH Hx]; constructor; [exact IH|].
  eapply Forall_impl; [|exact Hx]. intros y. apply HR.
Qed.

Lemma sort_strict {A : Type} (leb : A -> A -> bool) (l : list A) :
  (forall x y, leb x y = true \/ leb y x = true) ->
  (forall x y z, leb x y = true -> leb y z = true -> leb x z = true) ->
  NoDup l ->
  StronglySorted (fun a b => leb a b = true /\ a <> b) (sort leb l).
Proof.
  intros Htot Htrans Hnd.
  assert (Hnd' : NoDup (sort leb l)).
  { eapply Permutation_NoDup; [|exact Hnd].
    apply Permutation_sym, sort_perm. }
  pose proof (sort_sorted leb Htot Htrans l) as Hs.
  induction Hs as [|x s Hs IH Hx]; constructor.
  - apply IH. now inversion Hnd'.
  - inversion_clear Hnd' as [|? ? Hnin _].
    rewrite Forall_forall in *. intros y Hy.
    split; [now apply Hx|]. intros ->. contradiction.
Qed.

(** X10. The channel column of the channel table holds each channel that
    occurs in the filtered frame once, and nothing else, in strictly
    ascending order; so the table has as many rows as the frame has
    distinct channels. *)
Theorem by_ch_rows (df : list Row) :
  StronglySorted (fun a b => String.ltb a b = true)
                 (map cm_channel (by_ch df)) /\
  (forall c, In c (map cm_channel (by_ch df)) <->
             exists r, In r df /\ r_channel r = c) /\
  List.length (by_ch df) =
    List.length (unique String.eqb (map r_channel df)).
Proof.
  assert (E : map cm_channel (by_ch df) =
              sorted (unique String.eqb (map r_channel df))).
  { unfold by_ch. rewrite map_map. apply map_id. }
  rewrite E. split; [|split].
  - apply sorted_strict, NoDup_unique, String.eqb_eq.
  - intro c. rewrite In_sorted, (In_unique _ String.eqb_eq), in_map_iff.
    split; intros (r & H1 & H2); exists r; auto.
  - unfold by_ch, sorted. rewrite length_map.
    apply Permutation_length, sort_perm.
Qed.

(** Totals per key add up to the grand total, for any key column. *)
Section KeyedSums.
Context {K V : Type} (eqb : K -> K -> bool).
Hypothesis eqb_spec : forall x y, eqb x y = true <-> x = y.
Context (key : Row -> K).
Context (add : V -> V -> V) (zero : V) (R : V -> V -> Prop).
Context {R_equiv : Equivalence R}.
Context {add_proper : Proper (R ==> R ==> R) add}.
Hypothesis add_assoc : forall x y z, R (add x (add y z)) (add (add x y) z).
Hypothesis add_comm : forall x y, R (add x y) (add y x).
Hypothesis add_zero_l : forall x, R (add zero x) x.
Variable val : Row -> V.

Let total (l : list V) : V := fold_right add zero l.
Let part (df : list Row) (k : K) : V :=
  total (map val (filter (fun r => eqb (key r) k) df)).

Lemma part_cons (r : Row) (df : list Row) (k : K) :
  part (r :: df) k =
  if eqb (key r) k then add (val r) (part df k) else part df k.
Proof. unfold part. simpl. now destruct (eqb (key r) k). Qed.

Lemma keyed_totals (ks : list K) (df : list Row) :
  NoDup ks ->
  (forall r, In r df -> In (key r) ks) ->
  R (total (map (part df) ks)) (total (map val df)).
Proof.
  intro Hnd. induction df as [|r df IH]; intro Hin.
  - clear Hnd Hin. induction ks as [|k ks IHk]; simpl; [reflexivity|].
    simpl in IHk. rewrite IHk. apply add_zero_l.
  - cbn [map total fold_right]. fold (total (map val df)).
    rewrite <- IH by (intros x Hx; apply Hin; now right).
    assert (Hr : In (key r) ks) by (apply Hin; now left).
    clear IH Hin. induction Hnd as [|k ks Hk Hnd IHk]; [contradiction|].
    cbn [map total fold_right]. rewrite part_cons.
    fold (total (map (part (r :: df)) ks)). fold (total (map (part df) ks)).
    destruct (eqb (key r) k) eqn:E.
    + apply eqb_spec in E. subst k.
      replace (map (part (r :: df)) ks) with (map (part df) ks).
      * symmetry. apply add_assoc.
      * apply map_ext_in. intros c Hc. rewrite part_cons.
        destruct (eqb (key r) c) eqn:Ec; [|reflexivity].
        apply eqb_spec in Ec. subst c. contradiction.
    + destruct Hr as [Hr|Hr].
      * subst k. rewrite (proj2 (eqb_spec _ _) eq_refl) in E. discriminate.
      * rewrite (IHk Hr).
        rewrite add_assoc, (add_comm (part df k)), <- add_assoc.
        reflexivity.
Qed.
End KeyedSums.

Lemma Z_leb_total (x y : Z) : (x <=? y) = true \/ (y <=? x) = true.
Proof. rewrite !Z.leb_le. lia. Qed.

Lemma Z_leb_trans (x y z : Z) :
  (x <=? y) = true -> (y <=? z) = true -> (x <=? z) = true.
Proof. rewrite !Z.leb_le. lia. Qed.

(** X11. The trend has one point for each distinct timestamp of the
    filtered frame and no other, in strictly ascending order, and its
    purchase column adds up to the purchases total of the frame. *)
Theorem trend_points (df : list Row) :
  StronglySorted Z.lt (map t_date (trend df)) /\
  (forall d, In d (map t_date (trend df)) <->
             exists r, In r df /\ r_date r = d) /\
  sum_Z (map t_purchase (trend df)) = purchases df.
Proof.
  set (ks := sort Z.leb (unique Z.eqb (map r_date df))).
  assert (Hnd0 : NoDup (unique Z.eqb (map r_date df)))
    by apply NoDup_unique, Z.eqb_eq.
  assert (Hnd : NoDup ks).
  { eapply Permutation_NoDup; [apply Permutation_sym, sort_perm|exact Hnd0]. }
  assert (Hin : forall d, In d ks <-> exists r, In r df /\ r_date r = d).
  { intro d. unfold ks. rewrite In_sort, (In_unique _ Z.eqb_eq), in_map_iff.
    split; intros (r & H1 & H2); exists r; auto. }
  assert (Hcover : forall r, In r df -> In (r_date r) ks).
  { intros r Hr. apply Hin. now exists r. }
  assert (E : map t_date (trend df) = ks).
  { unfold trend. rewrite map_map. apply map_id. }
  rewrite E. unfold trend. fold ks. rewrite !map_map.
  cbn [t_purchase].
  split; [|split; [exact Hin|]].
  - eapply StronglySorted_weaken;
      [|apply (sort_strict Z.leb _ Z_leb_total Z_leb_trans Hnd0)].
    intros a b [H1 H2]. apply Z.leb_le in H1. lia.
  - apply same64_sum_Z.
    apply (keyed_totals Z.eqb Z.eqb_eq r_date add64 0 same64
             add64_assoc add64_comm add64_0_l r_purchase ks df Hnd Hcover).
Qed.

(** ** Header normalisation and validation (lines 27-33) *)

Lemma lower_ascii_idem (c : ascii) :
  lower_ascii (lower_ascii c) = lower_ascii c.
Proof. destruct c as [[] [] [] [] [] [] [] []]; reflexivity. Qed.

Lemma is_space_lower (c : ascii) : is_space (lower_ascii c) = is_space c.
Proof. destruct c as [[] [] [] [] [] [] [] []]; reflexivity. Qed.

Lemma lower_idem (s : string) : lower (lower s) = lower s.
Proof.
  induction s as [|c s IH]; simpl; [reflexivity|].
  now rewrite lower_ascii_idem, IH.
Qed.

Lemma lower_lstrip (s : string) : lower (lstrip s) = lstrip (lower s).
Proof.
  induction s as [|c s IH]; simpl; [reflexivity|].
  rewrite is_space_lower. now destruct (is_space c).
Qed.

Lemma lower_rstrip (s : string) : lower (rstrip s) = rstrip (lower s).
Proof.
  induction s as [|c s IH]; simpl; [reflexivity|].
  rewrite <- IH, is_space_lower.
  destruct (rstrip s); simpl; [now destruct (is_space c) | reflexivity].
Qed.

Lemma rstrip_idem (s : string) : rstrip (rstrip s) = rstrip s.
Proof.
  induction s as [|c s IH]; simpl; [reflexivity|].
  destruct (rstrip s) as [|a t] eqn:E.
  - destruct (is_space c) eqn:Ec; simpl; [reflexivity | now rewrite Ec].
  - change (rstrip (String c (String a t))) with
      (match rstrip (String a t) with
       | EmptyString =>
           if is_space c then EmptyString else String c EmptyString
       | u => String c u
       end).
    now rewrite IH.
Qed.

Lemma lstrip_head (s : string) :
  lstrip s = EmptyString \/
  exists c t, lstrip s = String c t /\ is_space c = false.
Proof.
  induction s as [|c s IH]; simpl; [now left|].
  destruct (is_space c) eqn:E; [exact IH|]. right. now exists c, s.
Qed.

Lemma rstrip_head (c : ascii) (t : string) :
  is_space c = false -> exists u, rstrip (String c t) = String c u.
Proof.
  intro H. simpl. rewrite H. destruct (rstrip t); eauto.
Qed.

Lemma strip_idem (s : string) : strip (strip s) = strip s.
Proof.
  unfold strip. destruct (lstrip_head s) as [->|(c & t & -> & Hc)];
    [reflexivity|].
  destruct (rstrip_head c t Hc) as (u & Hu).
  rewrite Hu at 1. cbn [lstrip]. rewrite Hc, <- Hu. apply rstrip_idem.
Qed.

(** X12. Normalising the header is idempotent, and it touches no row:
    a header that went through lower-casing and trimming once is left as
    it is by a second pass. *)
Theorem normalise_columns_idempotent (df : DataFrame) :
  normalise_columns (normalise_columns df) = normalise_columns df /\
  rows (normalise_columns df) = rows df /\
  List.length (columns (normalise_columns df)) = List.length (columns df).
Proof.
  unfold normalise_columns. cbn [columns rows]. split; [|split].
  - f_equal. rewrite map_map. apply map_ext. intro c.
    unfold strip at 2. rewrite lower_rstrip, lower_lstrip, lower_idem.
    apply strip_idem.
  - reflexivity.
  - apply length_map.
Qed.

Lemma filter_nil_iff {A : Type} (p : A -> bool) (l : list A) :
  filter p l = [] <-> forall x, In x l -> p x = false.
Proof.
  induction l as [|x l IH]; simpl; [tauto|].
  destruct (p x) eqn:E.
  - split; [discriminate|]. intro H.
    rewrite (H x (or_introl eq_refl)) in E. discriminate.
  - rewrite IH. split.
    + intros H y [<-|Hy]; auto.
    + intros H y Hy. apply H. now right.
Qed.

(** X13. Validation passes exactly when each of the nine required names
    occurs in the header: the order of the columns, repeated names and
    further columns make no difference. *)
Theorem validate_passes_iff (df : DataFrame) :
  (missing df = [] <-> incl required (columns df)) /\
  (validate df = ret tt <-> incl required (columns df)).
Proof.
  assert (H : missing df = [] <-> incl required (columns df)).
  { unfold missing, incl. rewrite filter_nil_iff.
    split; intros Hm c Hc; specialize (Hm c Hc).
    - apply mem_In. now destruct (mem c (columns df)).
    - apply mem_In in Hm. now rewrite Hm. }
  split; [exact H|]. rewrite <- H. unfold validate.
  destruct (missing df); split; intro E; try reflexivity; discriminate.
Qed.

(** ** Conversion rate (line 58) *)

(** X16. When every row's funnel narrows and the visits total fits an
    int64, the conversion-rate KPI lies between 0 and 1. *)
Theorem cvr_unit (df : list Row) :
  Forall well_formed df ->
  fold_right Z.add 0 (map r_visits df) < 2 ^ 63 ->
  (0 <= cvr df <= 1)%Q.
Proof.
  intros Hwf Hfit. unfold cvr, ratio_or_zero, purchases, visits.
  rewrite (column_sum_exact r_purchase), (column_sum_exact r_visits);
    try exact Hfit;
    try (eapply Forall_impl; [|exact Hwf]; unfold well_formed; simpl; lia).
  set (P := fold_right Z.add 0 (map r_purchase df)).
  set (V := fold_right Z.add 0 (map r_visits df)).
  assert (H0 : 0 <= P).
  { apply sum_nonneg, Forall_map. eapply Forall_impl; [|exact Hwf].
    unfold well_formed. simpl. lia. }
  assert (H1 : P <= V).
  { apply sum_le. eapply Forall_impl; [|exact Hwf].
    unfold well_formed. simpl. lia. }
  rewrite Qeq_bool_inject_Z.
  destruct (Z.eqb_spec V 0) as [E|E]; [lra|].
  assert (Hpos : (0 < inject_Z V)%Q).
  { change 0%Q with (inject_Z 0). rewrite <- Zlt_Qlt. lia. }
  rewrite Zle_Qle in H0, H1. change (inject_Z 0) with 0%Q in H0. split.
  - apply Qle_shift_div_l; [exact Hpos | lra].
  - apply Qle_shift_div_r; [exact Hpos | lra].
Qed.

Lemma cvr_unit_witness : (0 <= cvr abc <= 1)%Q.
Proof.
  apply (cvr_unit abc).
  - unfold abc, well_formed. repeat constructor; simpl; lia.
  - vm_compute. reflexivity.
Defined.

(** ** Selections under any sort kind (lines 105-109) *)

Lemma sort_stable_ok : argsort_ok sort_stable.
Proof.
  intros A leb l. unfold sort_stable. split; [apply sort_perm|].
  intros Htot Htrans. now apply sort_sorted.
Qed.

Lemma sort_rev_ties_ok : argsort_ok sort_rev_ties.
Proof.
  intros A leb l. unfold sort_rev_ties. split.
  - rewrite <- Permutation_rev. apply sort_perm.
  - intros Htot Htrans.
    apply (StronglySorted_rev_flip (fun a b => leb b a = true)).
    apply sort_sorted.
    + intros x y. destruct (Htot x y); auto.
    + intros x y z H1 H2. now apply Htrans with y.
Qed.

Lemma In_last {A : Type} (d : A) (s : list A) : s <> [] -> In (last s d) s.
Proof.
  induction s as [|x s IH]; [congruence|]. intros _.
  destruct s as [|y s]; [now left|].
  right. apply IH. discriminate.
Qed.

Lemma sorted_last_greatest {A : Type} (R : A -> A -> Prop) (d : A)
    (s : list A) :
  StronglySorted R s -> (forall x, R x x) -> s <> [] ->
  Forall (fun x => R x (last s d)) s.
Proof.
  intros Hs Hrefl. induction Hs as [|x s Hs IH Hx]; [congruence|].
  intros _. destruct s as [|y s]; [repeat constructor; apply Hrefl|].
  change (last (x :: y :: s) d) with (last (y :: s) d).
  constructor; [|apply IH; discriminate].
  rewrite Forall_forall in Hx. apply Hx, In_last. discriminate.
Qed.

Section SortValuesBy.
Variable argsort : forall A : Type, (A -> A -> bool) -> list A -> list A.
Hypothesis argsort_spec : argsort_ok argsort.
Context {A : Type} (key : A -> cell).

Let le (x y : A) : bool := cell_leb (key x) (key y).
Let defined (r : A) : bool := negb (isna (key r)).


Lemma defined_spec (t : list A) (x : A) :
  In x (filter defined t) <-> In x t /\ isna (key x) = false.
Proof.
  rewrite filter_In. unfold defined. now destruct (isna (key x)).
Qed.

(** Descending: the head carries the greatest defined key. *)
Lemma sort_values_by_desc_head (t : list A) :
  filter defined t <> [] ->
  exists r,
    head1 (sort_values_by argsort key false t) = [r] /\
    In r t /\ isna (key r) = false /\
    Forall (fun x => isna (key x) = true \/
                     cell_leb (key x) (key r) = true) t.
Proof.
  intro Hne. unfold sort_values_by. fold le. fold defined.
  set (m := filter defined t) in *.
  destruct (argsort_spec A le (rev m)) as [Hp Hs].
  specialize (Hs (fun x y => cell_leb_total _ _)
                 (fun x y z => cell_leb_trans _ _ _)).
  set (s := argsort A le (rev m)) in *.
  assert (Hsne : s <> []).
  { intro E. rewrite E in Hp. apply Permutation_nil in Hp.
    apply Hne. rewrite <- (rev_involutive m), Hp. reflexivity. }
  destruct m as [|d m'] eqn:Em; [congruence|]. rewrite <- Em in *.
  pose proof (In_last d s Hsne) as Hin.
  apply (Permutation_in _ Hp), in_rev in Hin.
  apply defined_spec in Hin. destruct Hin as [Hint Hdef].
  exists (last s d). split; [now apply head1_rev_last|].
  split; [exact Hint|]. split; [exact Hdef|].
  pose proof (sorted_last_greatest _ d s Hs) as Hmax.
  rewrite Forall_forall in *. intros x Hx.
  destruct (isna (key x)) eqn:Ex; [now left|right].
  apply (Hmax (fun y => match cell_leb_total (key y) (key y) with
                        | or_introl H | or_intror H => H
                        end) Hsne).
  apply (Permutation_in _ (Permutation_sym Hp)), in_rev.
  rewrite rev_involutive. apply defined_spec. auto.
Qed.

(** Ascending: the head carries the least defined key. *)
Lemma sort_values_by_asc_head (t : list A) :
  filter defined t <> [] ->
  exists r,
    head1 (sort_values_by argsort key true t) = [r] /\
    In r t /\ isna (key r) = false /\
    Forall (fun x => isna (key x) = true \/
                     cell_leb (key r) (key x) = true) t.
Proof.
  intro Hne. unfold sort_values_by. fold le. fold defined.
  set (m := filter defined t) in *.
  destruct (argsort_spec A le m) as [Hp Hs].
  specialize (Hs (fun x y => cell_leb_total _ _)
                 (fun x y z => cell_leb_trans _ _ _)).
  destruct (argsort A le m) as [|a s] eqn:Es.
  - apply Permutation_nil in Hp. contradiction.
  - assert (Hin : In a m) by (apply (Permutation_in _ Hp); now left).
    apply defined_spec in Hin. destruct Hin as [Hint Hdef].
    exists a. split; [reflexivity|].
    split; [exact Hint|]. split; [exact Hdef|].
    inversion_clear Hs as [|? ? _ Hmin].
    rewrite Forall_forall in *. intros x Hx.
    destruct (isna (key x)) eqn:Ex; [now left|right].
    assert (Hxs : In x (a :: s)).
    { apply (Permutation_in _ (Permutation_sym Hp)).
      apply defined_spec. auto. }
    destruct Hxs as [<-|Hxs]; [|now apply Hmin].
    destruct (cell_leb_total (key a) (key a)); assumption.
Qed.
End SortValuesBy.

(** C3 (as amended). Whatever sort the default kind runs, in every channel
    table with a defined roas the best-ROAS insight takes a row of the
    table whose roas is defined and not below any other defined roas, and
    the worst-ROAS insight a row whose roas is defined and not above any
    other; which of several tied rows is taken is left to the sort. *)
Theorem best_worst_extremal
    (argsort : forall A : Type, (A -> A -> bool) -> list A -> list A)
    (t : list ChannelMetrics) :
  argsort_ok argsort ->
  (exists r, In r t /\ isna (cm_roas r) = false) ->
  exists b w,
    best_by argsort t = [b] /\ In b t /\ isna (cm_roas b) = false /\
    Forall (fun x => isna (cm_roas x) = true \/
                     cell_leb (cm_roas x) (cm_roas b) = true) t /\
    worst_by argsort t = [w] /\ In w t /\ isna (cm_roas w) = false /\
    Forall (fun x => isna (cm_roas x) = true \/
                     cell_leb (cm_roas w) (cm_roas x) = true) t.
Proof.
  intros Hok (r & Hin & Hr).
  assert (Hne : filter (fun x => negb (isna (cm_roas x))) t <> []).
  { intro H.
    assert (Hf : In r (filter (fun x => negb (isna (cm_roas x))) t)).
    { apply filter_In. now rewrite Hr. }
    now rewrite H in Hf. }
  destruct (sort_values_by_desc_head argsort Hok cm_roas t Hne)
    as (b & Hb & Hbt & Hbd & Hmax).
  destruct (sort_values_by_asc_head argsort Hok cm_roas t Hne)
    as (w & Hw & Hwt & Hwd & Hmin).
  exists b, w. repeat split; assumption.
Qed.

Lemma best_worst_extremal_witness :
  exists b w,
    best_by sort_stable (by_ch abc) = [b] /\ In b (by_ch abc) /\
    isna (cm_roas b) = false /\
    Forall (fun x => isna (cm_roas x) = true \/
                     cell_leb (cm_roas x) (cm_roas b) = true) (by_ch abc) /\
    worst_by sort_stable (by_ch abc) = [w] /\ In w (by_ch abc) /\
    isna (cm_roas w) = false /\
    Forall (fun x => isna (cm_roas x) = true \/
                     cell_leb (cm_roas w) (cm_roas x) = true) (by_ch abc).
Proof.
  apply (best_worst_extremal sort_stable (by_ch abc)).
  - exact sort_stable_ok.
  - exists (channel_row abc "A"). split; [left|]; reflexivity.
Defined.

(** C3, as stated, fails: on the table A (1.0), B (1.0), C (2.0), D (2.0)
    a sort that reverses ties is a sort the default kind may run, and
    under it the best channel is D, while the first row with the greatest
    roas is C. *)
Lemma best_not_first_occurrence :
  argsort_ok sort_rev_ties /\
  map (fun r => (cm_channel r, cm_roas r)) (by_ch ties) =
    [("A", Num 1); ("B", Num 1); ("C", Num 2); ("D", Num 2)]%string /\
  map cm_channel (sort_values_by sort_rev_ties cm_roas false (by_ch ties)) =
    ["D"; "C"; "B"; "A"]%string /\
  map cm_channel (best_by sort_rev_ties (by_ch ties)) = ["D"%string] /\
  exists c, first_max cm_roas (by_ch ties) c /\ cm_channel c = "C"%string.
Proof.
  split; [exact sort_rev_ties_ok|]. do 3 (split; [reflexivity|]).
  exists (channel_row ties "C"). split; [|reflexivity].
  exists [channel_row ties "A"; channel_row ties "B"],
         [channel_row ties "D"].
  split; [reflexivity|]. split; [reflexivity|].
  split; repeat constructor; right; reflexivity.
Qed.

(** ** The biggest drop under any sort kind (line 109) *)





(** ** The unguarded division of the drop-off (line 79) *)

(** C6 at the failing input: with 100 visits, 5 purchases and no entry in
    the stages between them, the Checkout row has count 0 and next count
    5, and its drop-off is minus infinity, not a missing value; [dropna]
    keeps the row.  No channel of this frame has zero purchases or zero
    visits. *)
Theorem dropoff_zero_count_is_infinite :
  map (fun s => (stage s, count s, next s, dropoff_pct s))
      (funnel skipped_stages) =
    [(Visits, 100, Some 0, Num 1); (Signup, 0, Some 0, NA);
     (AddToCart, 0, Some 0, NA); (Checkout, 0, Some 5, NegInf);
     (Purchase, 5, None, NA)] /\
  map stage (dropna (funnel skipped_stages)) = [Visits; Checkout] /\
  map (fun m => (cm_purchase m, cm_visits m)) (by_ch skipped_stages) =
    [(5, 100)].
Proof. repeat split. Qed.
